(** * mcp-monitor: the telemetry collector and the interceptor

    A shallow embedding of [src/collector.ts] (class [TelemetryCollector]) and
    [src/interceptor.ts] (class [MCPInterceptor]), with the record types of
    [src/types.ts].

    Modelling conventions.
    - JavaScript numbers that the program uses as millisecond counts, sizes and
      counters are integers ([Z]).  Module [Double] has the arithmetic of
      IEEE 754 doubles; the error rate and the success rate of a snapshot
      are the doubles that the code computes.  A mean is kept as the exact
      quotient ([Q], compared with [==]) of the sum of the durations, which
      are integers, by their number; [mean_of] is the same mean with every
      addition and the division rounded.
    - JavaScript strings are [string]s, one character per code unit.
    - An array is a [list] in index order, [push] appends at the end.
    - [Date.now()] and [nanoid()] are read from an oracle carried by the host
      part of the state; each call consumes one reading.
    - [EventEmitter.emit] appends to a log of emitted events.  The listeners
      registered on the collector are not part of the two classes and not of
      the model: a call of [emit] returns normally.
    - A capability is called without a receiver, the way the wrappers call
      the original function.
    - A [Map] is an association list in insertion order. *)

From Stdlib Require Import ZArith QArith Qround Ascii String.
From Stdlib Require SpecFloat.
From stdpp Require Import base list strings sorting pretty gmap.

#[local] Open Scope Z_scope.

(** ** JavaScript numbers *)

(** A Number is an IEEE 754 double: [spec_float] of the Standard Library at
    precision 53 and maximal exponent 1024, with its correctly rounded
    operations. *)
Module Double.

Definition double : Type := SpecFloat.spec_float.

(** The Number value for the integer [n]: the nearest double, ties to even. *)
Definition of_Z (n : Z) : double := SpecFloat.binary_normalize 53 1024 n 0 false.

Definition add : double → double → double := SpecFloat.SFadd 53 1024.
Definition sub : double → double → double := SpecFloat.SFsub 53 1024.
Definition mul : double → double → double := SpecFloat.SFmul 53 1024.
Definition div : double → double → double := SpecFloat.SFdiv 53 1024.

(** [a === b] on Numbers. *)
Definition eqb : double → double → bool := SpecFloat.SFeqb.

(** The integer that a finite double with an integral value stands for. *)
Definition to_Z (x : double) : option Z :=
  match x with
  | SpecFloat.S754_zero _ => Some 0
  | SpecFloat.S754_finite sign m e =>
      let magnitude := if decide (0 ≤ e) then Z.pos m * 2 ^ e else Z.pos m / 2 ^ (- e) in
      Some (if sign then - magnitude else magnitude)
  | _ => None
  end.

End Double.

(** [Number::toString(x)] for the Number value [x] of an integer.  The digits
    are those of the shortest decimal numeral that denotes [x]: for
    [k = 1, 2, ...] the [k]-digit integers [s] next to [v / 10^(n - k)] are
    tried, [n] being the number of digits of [v] or one more, until
    [s × 10^(n - k)] rounds to [x]; of several the closest to [x] is taken.
    Up to 21 digits the numeral is written out, beyond that the exponent
    notation is used. *)
Definition denotes (v s scale : Z) : bool :=
  Double.eqb (Double.of_Z (s * scale)) (Double.of_Z v).

Definition digit_candidates (v k : Z) : list (Z * Z) :=
  let nd := Z.of_nat (String.length (pretty v)) in
  List.filter
    (λ '(s, n), bool_decide (0 ≤ n - k ∧ 10 ^ (k - 1) ≤ s < 10 ^ k)
                && denotes v s (10 ^ (n - k)))
    [(v / 10 ^ (nd - k), nd); (v / 10 ^ (nd - k) + 1, nd);
     (v / 10 ^ (nd + 1 - k), nd + 1); (v / 10 ^ (nd + 1 - k) + 1, nd + 1)].

(** Of two candidates the one closer to [v], an even [s] on a tie. *)
Definition closer (v k : Z) (a b : Z * Z) : Z * Z :=
  let distance := λ c : Z * Z, Z.abs (c.1 * 10 ^ (c.2 - k) - v) in
  if decide (distance b < distance a) then b
  else if decide (distance b = distance a ∧ Z.even b.1 = true ∧ Z.even a.1 = false) then b
  else a.

Definition closest (v k : Z) (candidates : list (Z * Z)) : option (Z * Z) :=
  match candidates with
  | [] => None
  | c :: rest => Some (fold_left (closer v k) rest c)
  end.

Fixpoint shortest_digits (v : Z) (ks : list Z) : option (Z * Z * Z) :=
  match ks with
  | [] => None
  | k :: ks' =>
      match closest v k (digit_candidates v k) with
      | Some (s, n) => Some (k, s, n)
      | None => shortest_digits v ks'
      end
  end.

Definition exponent_notation (s n : Z) : string :=
  match pretty s with
  | String first rest =>
      String first (if decide (rest = "") then "" else "." +:+ rest)
      +:+ "e+" +:+ pretty (n - 1)
  | EmptyString => ""
  end.

Definition Number_toString (number : Z) : string :=
  if decide (number = 0) then "0"
  else
    let sign := if decide (number < 0) then "-" else "" in
    match Double.to_Z (Double.of_Z (Z.abs number)) with
    | None => sign +:+ "Infinity"
    | Some v =>
        match shortest_digits v (Z.of_nat <$> seq 1 17) with
        | Some (k, s, n) =>
            if decide (n ≤ 21) then sign +:+ pretty (s * 10 ^ (n - k))
            else sign +:+ exponent_notation s n
        | None => sign +:+ pretty v
        end
    end.

(** ** JavaScript values *)

(** The values of the model: primitives, a plain object with its own data
    properties (its prototype is [Object.prototype]), [new Error(message)]
    and [new TypeError(message)].  [JSNumber n] is the Number value for the
    integer [n]. *)

#[warnings="-register-all"]
Inductive JSValue : Type :=
| JSUndefined
| JSNull
| JSBool (b : bool)
| JSNumber (n : Z)
| JSString (s : string)
| JSObject (props : list (string * JSValue))
| JSError (message : string)
| JSTypeError (message : string).

(** [{}] *)
Definition empty_object : JSValue := JSObject [].

(** ToBoolean. *)
Definition truthy (v : JSValue) : bool :=
  match v with
  | JSUndefined | JSNull => false
  | JSBool b => b
  | JSNumber n => negb (n =? 0)
  | JSString s => negb (String.eqb s "")
  | JSObject _ | JSError _ | JSTypeError _ => true
  end.

(** [a || b] *)
Definition js_or (a b : JSValue) : JSValue := if truthy a then a else b.

(** [args[0]]: reading past the end of an array gives [undefined]. *)
Definition arg0 (args : list JSValue) : JSValue := default JSUndefined (args !! 0%nat).

(** How an expression completes: with a value, or by throwing. *)
Inductive Outcome (A : Type) : Type :=
| Returns (a : A)
| Throws (thrown : JSValue).

Arguments Returns {A} a.
Arguments Throws {A} thrown.

(** The message of the [TypeError] of ToPrimitive, in the wording of V8. *)
Definition cannot_convert : string := "Cannot convert object to primitive value".

(** [String(v)].  For an object the conversion calls [toString]: the one of
    [Object.prototype] gives ["[object Object]"]; an own property [toString]
    hides it, and as no value of the model is callable, neither it nor
    [valueOf] yields a primitive and the conversion throws a [TypeError]. *)
Definition String_of (v : JSValue) : Outcome string :=
  match v with
  | JSUndefined => Returns "undefined"
  | JSNull => Returns "null"
  | JSBool true => Returns "true"
  | JSBool false => Returns "false"
  | JSNumber n => Returns (Number_toString n)
  | JSString s => Returns s
  | JSObject props =>
      if decide ("toString" ∈ props.*1) then Throws (JSTypeError cannot_convert)
      else Returns "[object Object]"
  | JSError m => Returns (if String.eqb m "" then "Error" else "Error: " +:+ m)
  | JSTypeError m => Returns (if String.eqb m "" then "TypeError" else "TypeError: " +:+ m)
  end.

(** [error instanceof Error ? error.message : String(error)] *)
Definition error_message (e : JSValue) : Outcome string :=
  match e with
  | JSError m | JSTypeError m => Returns m
  | _ => String_of e
  end.

(** [s || 'Unknown error'] for an optional string [s]: [undefined] and the
    empty string are falsy. *)
Definition or_unknown (s : option string) : string :=
  match s with
  | Some m => if String.eqb m "" then "Unknown error" else m
  | None => "Unknown error"
  end.

(** ** Whitespace and [split(/\s+/)] *)

(** The code units below 256 that [\s] matches: TAB, LF, VT, FF, CR, space
    and the no-break space. *)
Definition is_space (c : ascii) : bool :=
  let n := nat_of_ascii c in
  ((9 <=? n) && (n <=? 13))%nat || (n =? 32)%nat || (n =? 160)%nat.

(** [s.split(/\s+/)]: [cur] is the piece being read (reversed), [in_ws] tells
    that the previous character belonged to a separator.  A separator is a
    maximal run of whitespace; the piece before it is emitted when the run
    starts, the last piece when the string ends. *)
Fixpoint split_ws_go (cur : list ascii) (in_ws : bool) (s : list ascii)
  : list (list ascii) :=
  match s with
  | [] => [rev cur]
  | c :: s' =>
      if is_space c then
        if in_ws then split_ws_go cur true s'
        else rev cur :: split_ws_go [] true s'
      else split_ws_go (c :: cur) false s'
  end.

Definition split_ws (s : string) : list string :=
  string_of_list_ascii <$> split_ws_go [] false (list_ascii_of_string s).

(** ** Types ([types.ts]) *)

Inductive Status : Type := pending | success | error.

#[global] Instance Status_eq_dec : EqDecision Status.
Proof. solve_decision. Defined.

Inductive Operation : Type := read | write | list_op.

Inductive ErrorType : Type := tool | resource | prompt | server.

#[global] Instance ErrorType_eq_dec : EqDecision ErrorType.
Proof. solve_decision. Defined.

Record CallMetadata : Type := {
  modelName : option string;
  userId : option string;
  sessionId : option string
}.

(** The argument of [recordToolCall], declared as
    [Omit<MCPToolCall, 'id' | 'timestamp'>].  The declaration does not keep an
    object that has these two properties out ([server.ts] passes the body of
    a request, and a stored event has the type too); [tc_given_id] and
    [tc_given_timestamp] are the properties [id] and [timestamp] of the
    argument, [None] when it has none. *)
Record ToolCallInput : Type := {
  tc_given_id : option string;
  tc_given_timestamp : option Z;
  toolName : string;
  params : JSValue;
  tc_duration : option Z;
  tc_status : Status;
  tc_error : option string;
  tc_result : option JSValue;
  tc_metadata : option CallMetadata
}.

(** [{ id, timestamp, ...call }]: a stored event. *)
Record MCPToolCall : Type := {
  tc_id : string;
  tc_timestamp : Z;
  tc_call :> ToolCallInput
}.

Record ResourceAccessInput : Type := {
  ra_given_id : option string;
  ra_given_timestamp : option Z;
  resourceUri : string;
  operation : Operation;
  ra_duration : option Z;
  ra_status : Status;
  ra_error : option string;
  bytesTransferred : option Z
}.

Record MCPResourceAccess : Type := {
  ra_id : string;
  ra_timestamp : Z;
  ra_access :> ResourceAccessInput
}.

Record PromptCallInput : Type := {
  pc_given_id : option string;
  pc_given_timestamp : option Z;
  promptName : string;
  args : JSValue;
  pc_duration : option Z;
  pc_status : Status;
  pc_error : option string;
  tokensGenerated : option Z
}.

Record MCPPromptCall : Type := {
  pc_id : string;
  pc_timestamp : Z;
  pc_call :> PromptCallInput
}.

(** [Omit<ErrorLog, 'id' | 'timestamp'>] *)
Record ErrorInput : Type := {
  el_type : ErrorType;
  el_name : string;
  el_error : string;
  stackTrace : option string
}.

Record ErrorLog : Type := {
  el_id : string;
  el_timestamp : Z;
  el_fields :> ErrorInput
}.

Record Alerting : Type := {
  errorRateThreshold : Q;
  latencyThreshold : Q
}.

Record MonitorConfig : Type := {
  serverName : string;
  port : Z;
  retentionDays : Z;
  enableWebUI : bool;
  enableMetricsExport : bool;
  alerting : option Alerting
}.

Record PerformanceMetrics : Type := {
  avgLatency : Q;
  p50Latency : option Z;   (* [None] is [undefined], an out-of-range read *)
  p95Latency : option Z;
  p99Latency : option Z;
  requestsPerSecond : Z;
  errorRate : Double.double;
  successRate : Double.double
}.

Record ToolMetrics : Type := {
  tm_name : string;
  tm_callCount : Z;
  tm_successCount : Z;
  tm_errorCount : Z;
  tm_avgDuration : Q;
  lastCalled : Z;
  tm_errors : list string
}.

Record ResourceMetrics : Type := {
  rm_uri : string;
  accessCount : Z;
  rm_successCount : Z;
  rm_errorCount : Z;
  totalBytesTransferred : Z;
  rm_avgDuration : Q
}.

Record PromptMetrics : Type := {
  pm_name : string;
  pm_callCount : Z;
  pm_successCount : Z;
  pm_errorCount : Z;
  pm_avgDuration : Q;
  totalTokens : Z
}.

Record ServerMetrics : Type := {
  sm_serverName : string;
  uptime : Z;
  totalRequests : Z;
  successfulRequests : Z;
  failedRequests : Z;
  avgResponseTime : Q;
  requestsPerMinute : Z;
  sm_tools : list ToolMetrics;
  sm_resources : list ResourceMetrics;
  sm_prompts : list PromptMetrics;
  sm_errors : list ErrorLog;
  performance : PerformanceMetrics
}.

(** ** The collector's state and the host *)

(** The private fields of [TelemetryCollector]. *)
Record Collector : Type := {
  toolCalls : list MCPToolCall;
  resourceAccesses : list MCPResourceAccess;
  promptCalls : list MCPPromptCall;
  errors : list ErrorLog;
  startTime : Z;
  config : MonitorConfig;
  latencies : list Z;
  requestTimestamps : list Z
}.

(** What [EventEmitter.emit] was called with. *)
Inductive Emitted : Type :=
| tool_call (c : MCPToolCall)
| resource_access (a : MCPResourceAccess)
| prompt_call (c : MCPPromptCall)
| mcp_error (e : ErrorLog).

(** The host: the successive values of [Date.now()] and [nanoid()], and how
    many of each have been consumed. *)
Record Host : Type := {
  clock : nat → Z;
  clock_reads : nat;
  ids : nat → string;
  ids_drawn : nat
}.

Record World : Type := {
  engine : Collector;
  host : Host;
  emitted : list Emitted
}.

(** ** A state monad over the world *)

Definition M (A : Type) : Type := World → A * World.

#[global] Instance M_ret : MRet M := λ A a w, (a, w).
#[global] Instance M_bind : MBind M := λ A B f m w, let '(a, w') := m w in f a w'.

Definition eval {A} (m : M A) (w : World) : A := (m w).1.
Definition exec {A} (m : M A) (w : World) : World := (m w).2.

Definition gets {A} (f : Collector → A) : M A := λ w, (f (engine w), w).

Definition modify (f : Collector → Collector) : M unit :=
  λ w, (tt, {| engine := f (engine w); host := host w; emitted := emitted w |}).

Definition Date_now : M Z :=
  λ w, let h := host w in
       (clock h (clock_reads h),
        {| engine := engine w;
           host := {| clock := clock h; clock_reads := S (clock_reads h);
                      ids := ids h; ids_drawn := ids_drawn h |};
           emitted := emitted w |}).

Definition nanoid : M string :=
  λ w, let h := host w in
       (ids h (ids_drawn h),
        {| engine := engine w;
           host := {| clock := clock h; clock_reads := clock_reads h;
                      ids := ids h; ids_drawn := S (ids_drawn h) |};
           emitted := emitted w |}).

Definition emit (e : Emitted) : M unit :=
  λ w, (tt, {| engine := engine w; host := host w; emitted := emitted w ++ [e] |}).

(** Field updates of the collector. *)
Definition set_toolCalls (f : list MCPToolCall → list MCPToolCall) (c : Collector) :=
  {| toolCalls := f (toolCalls c); resourceAccesses := resourceAccesses c;
     promptCalls := promptCalls c; errors := errors c; startTime := startTime c;
     config := config c; latencies := latencies c;
     requestTimestamps := requestTimestamps c |}.

Definition set_resourceAccesses
  (f : list MCPResourceAccess → list MCPResourceAccess) (c : Collector) :=
  {| toolCalls := toolCalls c; resourceAccesses := f (resourceAccesses c);
     promptCalls := promptCalls c; errors := errors c; startTime := startTime c;
     config := config c; latencies := latencies c;
     requestTimestamps := requestTimestamps c |}.

Definition set_promptCalls (f : list MCPPromptCall → list MCPPromptCall) (c : Collector) :=
  {| toolCalls := toolCalls c; resourceAccesses := resourceAccesses c;
     promptCalls := f (promptCalls c); errors := errors c; startTime := startTime c;
     config := config c; latencies := latencies c;
     requestTimestamps := requestTimestamps c |}.

Definition set_errors (f : list ErrorLog → list ErrorLog) (c : Collector) :=
  {| toolCalls := toolCalls c; resourceAccesses := resourceAccesses c;
     promptCalls := promptCalls c; errors := f (errors c); startTime := startTime c;
     config := config c; latencies := latencies c;
     requestTimestamps := requestTimestamps c |}.

Definition set_latencies (f : list Z → list Z) (c : Collector) :=
  {| toolCalls := toolCalls c; resourceAccesses := resourceAccesses c;
     promptCalls := promptCalls c; errors := errors c; startTime := startTime c;
     config := config c; latencies := f (latencies c);
     requestTimestamps := requestTimestamps c |}.

Definition set_requestTimestamps (f : list Z → list Z) (c : Collector) :=
  {| toolCalls := toolCalls c; resourceAccesses := resourceAccesses c;
     promptCalls := promptCalls c; errors := errors c; startTime := startTime c;
     config := config c; latencies := latencies c;
     requestTimestamps := f (requestTimestamps c) |}.

(** [array.push(x)] *)
Definition push {A} (x : A) (l : list A) : list A := l ++ [x].

(** ** Ingestion ([collector.ts]) *)

(** [new TelemetryCollector(config)]: the constructor reads the clock once.
    The interval timer it installs runs [cleanup], defined below. *)
Definition new_TelemetryCollector (cfg : MonitorConfig) (h : Host) : World :=
  {| engine := {| toolCalls := []; resourceAccesses := []; promptCalls := [];
                  errors := []; startTime := clock h (clock_reads h);
                  config := cfg; latencies := []; requestTimestamps := [] |};
     host := {| clock := clock h; clock_reads := S (clock_reads h);
                ids := ids h; ids_drawn := ids_drawn h |};
     emitted := [] |}.

Definition recordError (e : ErrorInput) : M unit :=
  id ← nanoid;
  ts ← Date_now;
  let errorLog := {| el_id := id; el_timestamp := ts; el_fields := e |} in
  modify (set_errors (push errorLog));;
  emit (mcp_error errorLog).

Definition recordRequest (duration : option Z) : M unit :=
  now ← Date_now;
  modify (set_requestTimestamps (push now));;
  match duration with
  | Some d => modify (set_latencies (push d))
  | None => mret tt
  end.

(** [{ id: nanoid(), timestamp: Date.now(), ...call }]: the two calls are
    made, and a property [id] or [timestamp] of [call] replaces their
    result. *)
Definition recordToolCall (call : ToolCallInput) : M unit :=
  id ← nanoid;
  ts ← Date_now;
  let toolCall := {| tc_id := default id (tc_given_id call);
                     tc_timestamp := default ts (tc_given_timestamp call);
                     tc_call := call |} in
  modify (set_toolCalls (push toolCall));;
  recordRequest (tc_duration toolCall);;
  (if decide (tc_status toolCall = error) then
     recordError {| el_type := tool; el_name := toolName toolCall;
                    el_error := or_unknown (tc_error toolCall);
                    stackTrace := None |}
   else mret tt);;
  emit (tool_call toolCall).

Definition recordResourceAccess (access : ResourceAccessInput) : M unit :=
  id ← nanoid;
  ts ← Date_now;
  let resourceAccess := {| ra_id := default id (ra_given_id access);
                           ra_timestamp := default ts (ra_given_timestamp access);
                           ra_access := access |} in
  modify (set_resourceAccesses (push resourceAccess));;
  recordRequest (ra_duration resourceAccess);;
  (if decide (ra_status resourceAccess = error) then
     recordError {| el_type := resource; el_name := resourceUri resourceAccess;
                    el_error := or_unknown (ra_error resourceAccess);
                    stackTrace := None |}
   else mret tt);;
  emit (resource_access resourceAccess).

Definition recordPromptCall (call : PromptCallInput) : M unit :=
  id ← nanoid;
  ts ← Date_now;
  let promptCall := {| pc_id := default id (pc_given_id call);
                       pc_timestamp := default ts (pc_given_timestamp call);
                       pc_call := call |} in
  modify (set_promptCalls (push promptCall));;
  recordRequest (pc_duration promptCall);;
  (if decide (pc_status promptCall = error) then
     recordError {| el_type := prompt; el_name := promptName promptCall;
                    el_error := or_unknown (pc_error promptCall);
                    stackTrace := None |}
   else mret tt);;
  emit (prompt_call promptCall).

(** ** Aggregation ([collector.ts]) *)

(** A JavaScript [Map] with string keys: [get], and [set], which keeps the
    position of a key that is already present and appends a new one. *)
Section JSMap.
Context {V : Type}.

Fixpoint map_get (m : list (string * V)) (k : string) : option V :=
  match m with
  | [] => None
  | (k', v) :: m' => if decide (k = k') then Some v else map_get m' k
  end.

Fixpoint map_set (m : list (string * V)) (k : string) (v : V) : list (string * V) :=
  match m with
  | [] => [(k, v)]
  | (k', v') :: m' =>
      if decide (k = k') then (k, v) :: m' else (k', v') :: map_set m' k v
  end.

(** [Array.from(map.values())] *)
Definition map_values (m : list (string * V)) : list V := snd <$> m.
End JSMap.

(** [durations.reduce((a, b) => a + b, 0)] *)
Definition sum (durations : list Z) : Z := fold_left Z.add durations 0.

(** [durations.length > 0 ? durations.reduce(...) / durations.length : 0] *)
Definition mean (durations : list Z) : Q :=
  if decide (0 < length durations)%nat
  then (inject_Z (sum durations) / inject_Z (Z.of_nat (length durations)))%Q
  else 0%Q.

(** [c.duration!] *)
Definition unwrap (d : option Z) : Z := default 0 d.

(** [if (s) ...] for an optional string. *)
Definition truthy_string (s : option string) : bool :=
  match s with
  | Some m => negb (String.eqb m "")
  | None => false
  end.

(** [if (n) ...] for an optional number. *)
Definition truthy_number (n : option Z) : bool :=
  match n with
  | Some k => negb (k =? 0)
  | None => false
  end.

Definition tool_visit (toolMap : list (string * ToolMetrics)) (call : MCPToolCall)
  : list (string * ToolMetrics) :=
  let existing :=
    default {| tm_name := toolName call; tm_callCount := 0; tm_successCount := 0;
               tm_errorCount := 0; tm_avgDuration := 0%Q; lastCalled := 0;
               tm_errors := [] |}
            (map_get toolMap (toolName call)) in
  map_set toolMap (toolName call)
    {| tm_name := tm_name existing;
       tm_callCount := tm_callCount existing + 1;
       tm_successCount :=
         if decide (tc_status call = success) then tm_successCount existing + 1
         else tm_successCount existing;
       tm_errorCount :=
         if decide (tc_status call = error) then tm_errorCount existing + 1
         else tm_errorCount existing;
       tm_avgDuration := tm_avgDuration existing;
       lastCalled := Z.max (lastCalled existing) (tc_timestamp call);
       tm_errors :=
         if decide (tc_status call = error) then
           if truthy_string (tc_error call)
           then push (default "" (tc_error call)) (tm_errors existing)
           else tm_errors existing
         else tm_errors existing |}.

Definition tool_durations (calls : list MCPToolCall) (name : string) : list Z :=
  (λ c : MCPToolCall, unwrap (tc_duration c))
    <$> filter (λ c : MCPToolCall, toolName c = name ∧ tc_duration c ≠ None) calls.

Definition tool_average (calls : list MCPToolCall) (entry : string * ToolMetrics)
  : string * ToolMetrics :=
  let '(name, metrics) := entry in
  (name,
   {| tm_name := tm_name metrics; tm_callCount := tm_callCount metrics;
      tm_successCount := tm_successCount metrics;
      tm_errorCount := tm_errorCount metrics;
      tm_avgDuration := mean (tool_durations calls name);
      lastCalled := lastCalled metrics; tm_errors := tm_errors metrics |}).

Definition calculateToolMetrics (c : Collector) : list ToolMetrics :=
  let toolMap := fold_left tool_visit (toolCalls c) [] in
  let toolMap := tool_average (toolCalls c) <$> toolMap in
  map_values toolMap.

Definition resource_visit (resourceMap : list (string * ResourceMetrics))
  (access : MCPResourceAccess) : list (string * ResourceMetrics) :=
  let existing :=
    default {| rm_uri := resourceUri access; accessCount := 0; rm_successCount := 0;
               rm_errorCount := 0; totalBytesTransferred := 0; rm_avgDuration := 0%Q |}
            (map_get resourceMap (resourceUri access)) in
  map_set resourceMap (resourceUri access)
    {| rm_uri := rm_uri existing;
       accessCount := accessCount existing + 1;
       rm_successCount :=
         if decide (ra_status access = success) then rm_successCount existing + 1
         else rm_successCount existing;
       rm_errorCount :=
         if decide (ra_status access = error) then rm_errorCount existing + 1
         else rm_errorCount existing;
       totalBytesTransferred :=
         if truthy_number (bytesTransferred access)
         then totalBytesTransferred existing + unwrap (bytesTransferred access)
         else totalBytesTransferred existing;
       rm_avgDuration := rm_avgDuration existing |}.

Definition resource_durations (accesses : list MCPResourceAccess) (uri : string)
  : list Z :=
  (λ r : MCPResourceAccess, unwrap (ra_duration r))
    <$> filter (λ r : MCPResourceAccess, resourceUri r = uri ∧ ra_duration r ≠ None)
               accesses.

Definition resource_average (accesses : list MCPResourceAccess)
  (entry : string * ResourceMetrics) : string * ResourceMetrics :=
  let '(uri, metrics) := entry in
  (uri,
   {| rm_uri := rm_uri metrics; accessCount := accessCount metrics;
      rm_successCount := rm_successCount metrics;
      rm_errorCount := rm_errorCount metrics;
      totalBytesTransferred := totalBytesTransferred metrics;
      rm_avgDuration := mean (resource_durations accesses uri) |}).

Definition calculateResourceMetrics (c : Collector) : list ResourceMetrics :=
  let resourceMap := fold_left resource_visit (resourceAccesses c) [] in
  let resourceMap := resource_average (resourceAccesses c) <$> resourceMap in
  map_values resourceMap.

Definition prompt_visit (promptMap : list (string * PromptMetrics))
  (call : MCPPromptCall) : list (string * PromptMetrics) :=
  let existing :=
    default {| pm_name := promptName call; pm_callCount := 0; pm_successCount := 0;
               pm_errorCount := 0; pm_avgDuration := 0%Q; totalTokens := 0 |}
            (map_get promptMap (promptName call)) in
  map_set promptMap (promptName call)
    {| pm_name := pm_name existing;
       pm_callCount := pm_callCount existing + 1;
       pm_successCount :=
         if decide (pc_status call = success) then pm_successCount existing + 1
         else pm_successCount existing;
       pm_errorCount :=
         if decide (pc_status call = error) then pm_errorCount existing + 1
         else pm_errorCount existing;
       pm_avgDuration := pm_avgDuration existing;
       totalTokens :=
         if truthy_number (tokensGenerated call)
         then totalTokens existing + unwrap (tokensGenerated call)
         else totalTokens existing |}.

Definition prompt_durations (calls : list MCPPromptCall) (name : string) : list Z :=
  (λ p : MCPPromptCall, unwrap (pc_duration p))
    <$> filter (λ p : MCPPromptCall, promptName p = name ∧ pc_duration p ≠ None) calls.

Definition prompt_average (calls : list MCPPromptCall)
  (entry : string * PromptMetrics) : string * PromptMetrics :=
  let '(name, metrics) := entry in
  (name,
   {| pm_name := pm_name metrics; pm_callCount := pm_callCount metrics;
      pm_successCount := pm_successCount metrics;
      pm_errorCount := pm_errorCount metrics;
      pm_avgDuration := mean (prompt_durations calls name);
      totalTokens := totalTokens metrics |}).

Definition calculatePromptMetrics (c : Collector) : list PromptMetrics :=
  let promptMap := fold_left prompt_visit (promptCalls c) [] in
  let promptMap := prompt_average (promptCalls c) <$> promptMap in
  map_values promptMap.

(** [[...xs].sort((a, b) => a - b)]: a fresh array, sorted ascending. *)
Definition sort_ascending (xs : list Z) : list Z := merge_sort Z.le xs.

(** [percentile(sorted, p)]; [sorted[i]] past the end is [undefined]. *)
Definition percentile (sorted : list Z) (p : Q) : option Z :=
  if decide (length sorted = 0%nat) then Some 0
  else
    let index := Qceiling (inject_Z (Z.of_nat (length sorted)) * p) - 1 in
    sorted !! Z.to_nat (Z.max 0 index).

Definition calculateRequestsPerSecond : M Z :=
  now ← Date_now;
  let oneSecondAgo := now - 1000 in
  recentRequests ← gets (λ c, filter (λ t, oneSecondAgo ≤ t) (requestTimestamps c));
  mret (Z.of_nat (length recentRequests)).

Definition calculateRequestsPerMinute : M Z :=
  now ← Date_now;
  let oneMinuteAgo := now - 60000 in
  recentRequests ← gets (λ c, filter (λ t, oneMinuteAgo ≤ t) (requestTimestamps c));
  mret (Z.of_nat (length recentRequests)).

Definition calculateAvgDuration (c : Collector) : Q :=
  if decide (length (latencies c) = 0%nat) then 0%Q
  else (inject_Z (sum (latencies c)) / inject_Z (Z.of_nat (length (latencies c))))%Q.

(** [this.toolCalls.length + this.resourceAccesses.length + this.promptCalls.length] *)
Definition total_requests (c : Collector) : Z :=
  Z.of_nat (length (toolCalls c)) + Z.of_nat (length (resourceAccesses c))
  + Z.of_nat (length (promptCalls c)).

(** The two rates of [calculatePerformance], computed on Numbers:
    [total > 0 ? (errors / total) * 100 : 0] and
    [total > 0 ? ((total - errors) / total) * 100 : 100]. *)
Definition errorRate_of (errors total : Z) : Double.double :=
  if decide (0 < total)
  then Double.mul (Double.div (Double.of_Z errors) (Double.of_Z total)) (Double.of_Z 100)
  else Double.of_Z 0.

Definition successRate_of (errors total : Z) : Double.double :=
  if decide (0 < total)
  then Double.mul
         (Double.div (Double.sub (Double.of_Z total) (Double.of_Z errors))
                     (Double.of_Z total))
         (Double.of_Z 100)
  else Double.of_Z 100.

Definition calculatePerformance : M PerformanceMetrics :=
  sortedLatencies ← gets (λ c, sort_ascending (latencies c));
  total ← gets total_requests;
  errors ← gets (λ c, Z.of_nat (length (errors c)));
  requestsPerSecond ← calculateRequestsPerSecond;
  mret {| avgLatency := mean sortedLatencies;
          p50Latency := percentile sortedLatencies (50 # 100);
          p95Latency := percentile sortedLatencies (95 # 100);
          p99Latency := percentile sortedLatencies (99 # 100);
          requestsPerSecond := requestsPerSecond;
          errorRate := errorRate_of errors total;
          successRate := successRate_of errors total |}.

(** [xs.reduce((a, b) => a + b, 0) / xs.length], guarded by
    [xs.length > 0], on Numbers: the sum is taken in the order of the array,
    each addition rounded. *)
Definition mean_of (xs : list Z) : Double.double :=
  if decide (0 < length xs)%nat
  then Double.div (fold_left (λ a b, Double.add a (Double.of_Z b)) xs (Double.of_Z 0))
                  (Double.of_Z (Z.of_nat (length xs)))
  else Double.of_Z 0.

(** [xs.slice(-n)] for [n > 0]: the copy starts at index [max(length - n, 0)]. *)
Definition slice_last {A} (n : Z) (l : list A) : list A :=
  drop (Z.to_nat (Z.max (Z.of_nat (length l) - n) 0)) l.

(** An element of the array that [getMetrics] builds from the three logs. *)
Inductive Request : Type :=
| a_tool (c : MCPToolCall)
| a_resource (r : MCPResourceAccess)
| a_prompt (p : MCPPromptCall).

Definition getMetrics : M ServerMetrics :=
  now ← Date_now;
  uptime ← gets (λ c, now - startTime c);
  toolMetrics ← gets calculateToolMetrics;
  resourceMetrics ← gets calculateResourceMetrics;
  promptMetrics ← gets calculatePromptMetrics;
  performance ← calculatePerformance;
  totalRequests ← gets total_requests;
  successfulRequests ← gets (λ c,
    Z.of_nat (length
      ((a_tool <$> filter (λ x : MCPToolCall, tc_status x = success) (toolCalls c))
       ++ (a_resource
             <$> filter (λ r : MCPResourceAccess, ra_status r = success)
                        (resourceAccesses c))
       ++ (a_prompt
             <$> filter (λ p : MCPPromptCall, pc_status p = success) (promptCalls c)))));
  serverName ← gets (λ c, serverName (config c));
  avgResponseTime ← gets calculateAvgDuration;
  requestsPerMinute ← calculateRequestsPerMinute;
  errors ← gets (λ c, slice_last 100 (errors c));
  mret {| sm_serverName := serverName;
          uptime := uptime;
          totalRequests := totalRequests;
          successfulRequests := successfulRequests;
          failedRequests := totalRequests - successfulRequests;
          avgResponseTime := avgResponseTime;
          requestsPerMinute := requestsPerMinute;
          sm_tools := toolMetrics;
          sm_resources := resourceMetrics;
          sm_prompts := promptMetrics;
          sm_errors := errors;
          performance := performance |}.

(** ** Eviction and reset ([collector.ts]) *)

Definition cleanup : M unit :=
  retentionMs ← gets (λ c, retentionDays (config c) * 24 * 60 * 60 * 1000);
  now ← Date_now;
  let cutoff := now - retentionMs in
  modify (set_toolCalls (filter (λ c : MCPToolCall, cutoff ≤ tc_timestamp c)));;
  modify (set_resourceAccesses
            (filter (λ r : MCPResourceAccess, cutoff ≤ ra_timestamp r)));;
  modify (set_promptCalls (filter (λ p : MCPPromptCall, cutoff ≤ pc_timestamp p)));;
  modify (set_errors (filter (λ e : ErrorLog, cutoff ≤ el_timestamp e)));;
  modify (set_latencies (slice_last 10000));;
  modify (set_requestTimestamps (filter (λ t, cutoff ≤ t))).

Definition reset : M unit :=
  now ← Date_now;
  modify (λ c, {| toolCalls := []; resourceAccesses := []; promptCalls := [];
                  errors := []; startTime := now; config := config c;
                  latencies := []; requestTimestamps := [] |}).

(** ** The interceptor ([interceptor.ts]) *)

(** How an awaited call ends: it returns (or its promise fulfils), it throws
    (or its promise rejects), or it never settles. *)
Inductive Settled : Type :=
| Fulfilled (result : JSValue)
| Rejected (reason : JSValue)
| Unsettled.

(** A capability ([Function] in [MCPServer]): called with its arguments it
    acts on the world until it settles. *)
Definition Capability : Type := list JSValue → M Settled.

Record MCPServer : Type := {
  tools : option (gmap string Capability);
  resources : option (gmap string Capability);
  prompts : option (gmap string Capability)
}.

(** [typeof result === 'string' ? result.length : 0] *)
Definition string_length_or_0 (result : JSValue) : Z :=
  match result with
  | JSString s => Z.of_nat (String.length s)
  | _ => 0
  end.

(** [typeof result === 'string' ? result.split(/\s+/).length : 0] *)
Definition split_length_or_0 (result : JSValue) : Z :=
  match result with
  | JSString s => Z.of_nat (length (split_ws s))
  | _ => 0
  end.

(** The three wrappers.  In the [catch] block the object literal passed to
    the collector is evaluated first: when reading the message of the thrown
    value throws, the collector is not called and the wrapper throws that
    exception instead of the one it has caught. *)
Definition wrapTool (toolName : string) (tool : Capability) : Capability :=
  λ args,
    startTime ← Date_now;
    let params := js_or (arg0 args) empty_object in
    settled ← tool args;
    match settled with
    | Fulfilled result =>
        now ← Date_now;
        let duration := now - startTime in
        recordToolCall {| tc_given_id := None; tc_given_timestamp := None;
                          toolName := toolName; params := params;
                          tc_duration := Some duration; tc_status := success;
                          tc_error := None; tc_result := Some result;
                          tc_metadata := None |};;
        mret (Fulfilled result)
    | Rejected thrown =>
        now ← Date_now;
        let duration := now - startTime in
        match error_message thrown with
        | Returns message =>
            recordToolCall {| tc_given_id := None; tc_given_timestamp := None;
                              toolName := toolName; params := params;
                              tc_duration := Some duration; tc_status := error;
                              tc_error := Some message; tc_result := None;
                              tc_metadata := None |};;
            mret (Rejected thrown)
        | Throws exception => mret (Rejected exception)
        end
    | Unsettled => mret Unsettled
    end.

Definition wrapResource (resourceName : string) (resource : Capability) : Capability :=
  λ args,
    startTime ← Date_now;
    settled ← resource args;
    match settled with
    | Fulfilled result =>
        now ← Date_now;
        let duration := now - startTime in
        recordResourceAccess
          {| ra_given_id := None; ra_given_timestamp := None;
             resourceUri := resourceName; operation := read;
             ra_duration := Some duration; ra_status := success; ra_error := None;
             bytesTransferred := Some (string_length_or_0 result) |};;
        mret (Fulfilled result)
    | Rejected thrown =>
        now ← Date_now;
        let duration := now - startTime in
        match error_message thrown with
        | Returns message =>
            recordResourceAccess
              {| ra_given_id := None; ra_given_timestamp := None;
                 resourceUri := resourceName; operation := read;
                 ra_duration := Some duration; ra_status := error;
                 ra_error := Some message; bytesTransferred := None |};;
            mret (Rejected thrown)
        | Throws exception => mret (Rejected exception)
        end
    | Unsettled => mret Unsettled
    end.

Definition wrapPrompt (promptName : string) (prompt : Capability) : Capability :=
  λ args,
    startTime ← Date_now;
    let promptArgs := js_or (arg0 args) empty_object in
    settled ← prompt args;
    match settled with
    | Fulfilled result =>
        now ← Date_now;
        let duration := now - startTime in
        recordPromptCall
          {| pc_given_id := None; pc_given_timestamp := None;
             promptName := promptName; args := promptArgs;
             pc_duration := Some duration; pc_status := success; pc_error := None;
             tokensGenerated := Some (split_length_or_0 result) |};;
        mret (Fulfilled result)
    | Rejected thrown =>
        now ← Date_now;
        let duration := now - startTime in
        match error_message thrown with
        | Returns message =>
            recordPromptCall
              {| pc_given_id := None; pc_given_timestamp := None;
                 promptName := promptName; args := promptArgs;
                 pc_duration := Some duration; pc_status := error;
                 pc_error := Some message; tokensGenerated := None |};;
            mret (Rejected thrown)
        | Throws exception => mret (Rejected exception)
        end
    | Unsettled => mret Unsettled
    end.

(** [for (const [name, f] of Object.entries(record)) out[name] = wrap(name, f)] *)
Definition wrap_entries (wrap : string → Capability → Capability)
  (record : gmap string Capability) : gmap string Capability :=
  map_imap (λ name f, Some (wrap name f)) record.

Definition instrument (server : MCPServer) : MCPServer :=
  {| tools := wrap_entries wrapTool <$> tools server;
     resources := wrap_entries wrapResource <$> resources server;
     prompts := wrap_entries wrapPrompt <$> prompts server |}.

(** ** Vocabulary of the statements *)

(** The value the next [Date.now()] returns, and the next [nanoid()]. *)
Definition now_of (w : World) : Z := clock (host w) (clock_reads (host w)).
Definition next_id (w : World) : string := ids (host w) (ids_drawn (host w)).

(** The world after one more reading of the clock. *)
Definition tick (w : World) : World := exec Date_now w.


(** The message of a derived error record, in the words of the
    specification: the supplied error string when it is present and not
    empty, the literal ['Unknown error'] otherwise. *)
Definition message_or_fallback (supplied : option string) : string :=
  match supplied with
  | None => "Unknown error"
  | Some EmptyString => "Unknown error"
  | Some m => m
  end.

(** The retention cutoff of a sweep that starts in world [w]:
    now − retentionDays·24·60·60·1000 ms. *)
Definition cutoff_of (w : World) : Z :=
  now_of w - retentionDays (config (engine w)) * 24 * 60 * 60 * 1000.

(** [new] is [old] without the records older than [cutoff]: none of the
    records kept is older, the records kept are in their original order, and
    no record at or after the cutoff is missing. *)
Definition evicted_before {A} (ts : A → Z) (cutoff : Z) (old new : list A) : Prop :=
  Forall (λ x, cutoff ≤ ts x) new
  ∧ new `sublist_of` old
  ∧ filter (λ x, cutoff ≤ ts x) old `sublist_of` new.

(** The nearest-rank index in the words of the specification:
    ceil(n × p) − 1, clamped to [0, n − 1]. *)
Definition nearest_rank_index (n : nat) (p : Q) : nat :=
  Z.to_nat
    (Z.max 0 (Z.min (Z.of_nat n - 1) (Qceiling (inject_Z (Z.of_nat n) * p) - 1))).

(** Tool calls ingested one after the other. *)
Definition tool_calls_in_turn (calls : list ToolCallInput) : M unit :=
  foldr (λ call rest, recordToolCall call;; rest) (mret tt) calls.

(** The argument of [recordToolCall] that the test-suite uses: a name, a
    status, a duration and, for a failure, an error string. *)
Definition a_call (name : string) (status : Status) (duration : option Z)
  (err : option string) : ToolCallInput :=
  {| tc_given_id := None; tc_given_timestamp := None;
     toolName := name; params := empty_object; tc_duration := duration;
     tc_status := status; tc_error := err; tc_result := None;
     tc_metadata := None |}.

(** A configuration and a host for the examples: the clock starts at 1000 and
    advances by one millisecond at each reading, the identifiers are the
    decimal numerals. *)
Definition example_config : MonitorConfig :=
  {| serverName := "test"; port := 3000; retentionDays := 1;
     enableWebUI := false; enableMetricsExport := true; alerting := None |}.

Definition example_host : Host :=
  {| clock := λ k, 1000 + Z.of_nat k; clock_reads := 0;
     ids := λ k, pretty k; ids_drawn := 0 |}.

Definition example_world : World := new_TelemetryCollector example_config example_host.

(** The records of a tool-call log that carry a given name. *)
Definition calls_on (name : string) (log : list MCPToolCall) : list MCPToolCall :=
  filter (λ c : MCPToolCall, toolName c = name) log.

(** [metrics.tools.find(t => t.name === name)] *)
Definition find_tool (tools : list ToolMetrics) (name : string) : option ToolMetrics :=
  snd <$> list_find (λ t, tm_name t = name) tools.


(** The number of calls with a given status. *)
Definition count_status (status : Status) (calls : list ToolCallInput) : Z :=
  Z.of_nat (length (filter (λ c : ToolCallInput, tc_status c = status) calls)).

(** What the first pass of [calculateToolMetrics] has collected under [name]
    once it has visited [log]. *)
Definition counts_ok (log : list MCPToolCall) (name : string) (e : ToolMetrics) : Prop :=
  tm_name e = name
  ∧ tm_callCount e = Z.of_nat (length (calls_on name log))
  ∧ tm_successCount e = count_status success (tc_call <$> calls_on name log)
  ∧ tm_errorCount e = count_status error (tc_call <$> calls_on name log).

Definition entry_ok (log : list MCPToolCall) (name : string) (o : option ToolMetrics)
  : Prop :=
  match o with
  | None => calls_on name log = []
  | Some e => calls_on name log ≠ [] ∧ counts_ok log name e
  end.

Definition named_by_key (m : list (string * ToolMetrics)) : Prop :=
  Forall (λ entry, tm_name entry.2 = entry.1) m.

(** The error count a snapshot reports under a name: that of the aggregate
    with this name, 0 when there is none. *)
Definition error_count (tools : list ToolMetrics) (name : string) : Z :=
  default 0 (tm_errorCount <$> find_tool tools name).

(** The same call with another status. *)
Definition with_status (status : Status) (call : ToolCallInput) : ToolCallInput :=
  {| tc_given_id := tc_given_id call; tc_given_timestamp := tc_given_timestamp call;
     toolName := toolName call; params := params call;
     tc_duration := tc_duration call; tc_status := status;
     tc_error := tc_error call; tc_result := tc_result call;
     tc_metadata := tc_metadata call |}.

(** A collector that has seen one failed call of the tool ["t"], and a call of
    the same tool that is still pending. *)
Definition one_failure_world : World :=
  exec (recordToolCall (a_call "t" error (Some 50) (Some "boom"))) example_world.

Definition pending_call : ToolCallInput := a_call "t" pending None None.

(** A collector that has seen three calls of the tool ["t"], the first of
    which failed. *)
Definition one_in_three_world : World :=
  exec (tool_calls_in_turn
          [a_call "t" error (Some 50) (Some "boom");
           a_call "t" success (Some 100) None;
           a_call "t" success (Some 100) None])
       example_world.

(** The three kinds of capability of an [MCPServer]. *)
Inductive Kind : Type := Tool | Resource | Prompt.

(** [server.tools?.[name]], [server.resources?.[name]], [server.prompts?.[name]] *)
Definition capability_of (kind : Kind) (server : MCPServer) (name : string)
  : option Capability :=
  match kind with
  | Tool => tools server
  | Resource => resources server
  | Prompt => prompts server
  end ≫= (λ record, record !! name).

(** One call of an ingestion operation of the collector, with its argument. *)
Inductive Ingestion : Type :=
| IngestTool (call : ToolCallInput)
| IngestResource (access : ResourceAccessInput)
| IngestPrompt (call : PromptCallInput).

Definition ingest (i : Ingestion) : M unit :=
  match i with
  | IngestTool call => recordToolCall call
  | IngestResource access => recordResourceAccess access
  | IngestPrompt call => recordPromptCall call
  end.

Definition ingestion_kind (i : Ingestion) : Kind :=
  match i with
  | IngestTool _ => Tool
  | IngestResource _ => Resource
  | IngestPrompt _ => Prompt
  end.

Definition ingestion_name (i : Ingestion) : string :=
  match i with
  | IngestTool call => toolName call
  | IngestResource access => resourceUri access
  | IngestPrompt call => promptName call
  end.

Definition ingestion_status (i : Ingestion) : Status :=
  match i with
  | IngestTool call => tc_status call
  | IngestResource access => ra_status access
  | IngestPrompt call => pc_status call
  end.

Definition ingestion_error (i : Ingestion) : option string :=
  match i with
  | IngestTool call => tc_error call
  | IngestResource access => ra_error access
  | IngestPrompt call => pc_error call
  end.

(** Between [before] and [after] the collector has stored exactly one more
    event, the one that the ingestion [i] carries. *)
Definition logged_once (i : Ingestion) (before after : Collector) : Prop :=
  match i with
  | IngestTool call =>
      (∃ r, toolCalls after = toolCalls before ++ [r] ∧ tc_call r = call)
      ∧ resourceAccesses after = resourceAccesses before
      ∧ promptCalls after = promptCalls before
  | IngestResource access =>
      toolCalls after = toolCalls before
      ∧ (∃ r, resourceAccesses after = resourceAccesses before ++ [r]
              ∧ ra_access r = access)
      ∧ promptCalls after = promptCalls before
  | IngestPrompt call =>
      toolCalls after = toolCalls before
      ∧ resourceAccesses after = resourceAccesses before
      ∧ (∃ r, promptCalls after = promptCalls before ++ [r] ∧ pc_call r = call)
  end.

(** A capability that returns its first argument, one that throws
    [new Error(message)], one that throws a given value and one that returns
    a given value, and a server that offers an echoing tool. *)
Definition echo : Capability := λ args, mret (Fulfilled (arg0 args)).
Definition failing (message : string) : Capability :=
  λ _, mret (Rejected (JSError message)).
Definition throwing (e : JSValue) : Capability := λ _, mret (Rejected e).
Definition returning (v : JSValue) : Capability := λ _, mret (Fulfilled v).

Definition echo_server : MCPServer :=
  {| tools := Some {[ "echo" := echo ]}; resources := None; prompts := None |}.

(** The number of words of a string in the words of the specification: the
    maximal runs of characters that are not whitespace.  [in_word] tells that
    the previous character belonged to a word. *)
Fixpoint count_words (in_word : bool) (s : list ascii) : nat :=
  match s with
  | [] => 0
  | c :: s' =>
      if is_space c then count_words false s'
      else (if in_word then 0 else 1) + count_words true s'
  end.

Definition word_count (s : string) : nat := count_words false (list_ascii_of_string s).

(** The token count that the last stored prompt call carries. *)
Definition last_tokens (w : World) : option Z :=
  last (promptCalls (engine w)) ≫= (λ p : MCPPromptCall, tokensGenerated p).

(** The byte count that the last stored resource access carries. *)
Definition last_bytes (w : World) : option Z :=
  last (resourceAccesses (engine w)) ≫= (λ r : MCPResourceAccess, bytesTransferred r).

(** The string is empty or begins with whitespace. *)
Definition starts_blank (s : list ascii) : bool :=
  match s with
  | [] => true
  | c :: _ => is_space c
  end.

(** The last character is whitespace; [previous] stands for it when the
    string is empty. *)
Fixpoint ends_blank (previous : bool) (s : list ascii) : bool :=
  match s with
  | [] => previous
  | c :: s' => ends_blank (is_space c) s'
  end.

(** Three calls of the tool ["read-file"], two successful and one failed, and
    the collector that has ingested them. *)
Definition read_file_calls : list ToolCallInput :=
  [a_call "read-file" success (Some 100) None;
   a_call "read-file" success (Some 200) None;
   a_call "read-file" error (Some 50) (Some "File not found")].

Definition read_file_world : World :=
  exec (tool_calls_in_turn read_file_calls) example_world.

(** The tool of the test-suite that returns an object built from its
    parameters. *)
Definition test_tool : Capability :=
  λ inputs,
    mret (Fulfilled (JSObject [("result", JSString "success"); ("params", arg0 inputs)])).

Definition test_server (name : string) (f : Capability) : MCPServer :=
  {| tools := Some {[ name := f ]}; resources := None; prompts := None |}.

(** [await instrumented.tools[name](...inputs)], the outcome left aside; a
    missing tool leaves the world as it is. *)
Definition call_tool (server : MCPServer) (name : string) (inputs : list JSValue)
  : M unit :=
  match capability_of Tool server name with
  | Some g => g inputs;; mret tt
  | None => mret tt
  end.

(** * Further vocabulary: operations in sequence, counts over the logs *)

(** The operations of the collector that its callers use. *)
Inductive Op : Type :=
| op_ingest (i : Ingestion)
| op_getMetrics
| op_reset
| op_cleanup.

Definition run_op (o : Op) : M unit :=
  match o with
  | op_ingest i => ingest i
  | op_getMetrics => getMetrics;; mret tt
  | op_reset => reset
  | op_cleanup => cleanup
  end.

Definition run_ops (ops : list Op) : M unit :=
  foldr (λ o rest, run_op o;; rest) (mret tt) ops.

Definition is_sweep (o : Op) : Prop :=
  match o with
  | op_cleanup => True
  | _ => False
  end.

#[global] Instance is_sweep_dec (o : Op) : Decision (is_sweep o).
Proof. destruct o; simpl; apply _. Defined.

(** The stored events of the three kinds that have a given status, and those
    that carry a duration. *)
Definition events_with_status (s : Status) (c : Collector) : Z :=
  Z.of_nat (length (filter (λ x : MCPToolCall, tc_status x = s) (toolCalls c)))
  + Z.of_nat (length (filter (λ r : MCPResourceAccess, ra_status r = s)
                             (resourceAccesses c)))
  + Z.of_nat (length (filter (λ p : MCPPromptCall, pc_status p = s) (promptCalls c))).

Definition events_with_duration (c : Collector) : Z :=
  Z.of_nat (length (filter (λ x : MCPToolCall, tc_duration x ≠ None) (toolCalls c)))
  + Z.of_nat (length (filter (λ r : MCPResourceAccess, ra_duration r ≠ None)
                             (resourceAccesses c)))
  + Z.of_nat (length (filter (λ p : MCPPromptCall, pc_duration p ≠ None)
                             (promptCalls c))).

(** The side logs agree with the event logs: one timestamp per stored event,
    one error record per stored event with status ['error'], one duration per
    stored event that carries one. *)
Definition logs_agree (c : Collector) : Prop :=
  Z.of_nat (length (requestTimestamps c)) = total_requests c
  ∧ Z.of_nat (length (errors c)) = events_with_status error c
  ∧ Z.of_nat (length (latencies c)) = events_with_duration c.

Definition ingestion_duration (i : Ingestion) : option Z :=
  match i with
  | IngestTool call => tc_duration call
  | IngestResource access => ra_duration access
  | IngestPrompt call => pc_duration call
  end.

(** The event that an ingestion emits, given the stored logs after it. *)
Definition emitted_event (i : Ingestion) (after : Collector) : option Emitted :=
  match i with
  | IngestTool _ => tool_call <$> last (toolCalls after)
  | IngestResource _ => resource_access <$> last (resourceAccesses after)
  | IngestPrompt _ => prompt_call <$> last (promptCalls after)
  end.

(** A failed call, a snapshot and a pending call, and the collector after
    them. *)
Definition example_ops : list Op :=
  [op_ingest (IngestTool (a_call "t" error (Some 50) (Some "boom")));
   op_getMetrics; op_ingest (IngestTool pending_call)].

Definition example_ops_world : World := exec (run_ops example_ops) example_world.

(** A host whose clock advances by [step] milliseconds at each reading, the
    three calls of ["read-file"] ingested on a clock that advances by 300 ms,
    and one call ingested on a clock that advances by 100,000,000 ms, more
    than the retention of one day. *)
Definition stepping_host (step : Z) : Host :=
  {| clock := λ k, step * Z.of_nat k; clock_reads := 0;
     ids := λ k, pretty k; ids_drawn := 0 |}.

Definition spread_world : World :=
  exec (tool_calls_in_turn read_file_calls)
       (new_TelemetryCollector example_config (stepping_host 300)).

Definition aged_world : World :=
  exec (recordToolCall (a_call "t" success (Some 100) None))
       (new_TelemetryCollector example_config (stepping_host 100000000)).

(** ** Grouping by name *)

(** The names of a list in the order in which each is first seen. *)
Definition add_name (seen : list string) (name : string) : list string :=
  if decide (name ∈ seen) then seen else seen ++ [name].

Definition first_seen (names : list string) : list string :=
  fold_left add_name names [].

(** The sum of a quantity over a list. *)
Definition sumZ {A} (f : A → Z) (l : list A) : Z := foldr (λ x acc, f x + acc) 0 l.

(** The shape that the three first passes share: look the name up, start
    from a fresh aggregate when it is missing, update, store. *)
Definition group_visit {E V} (key : E → string) (init : E → V) (upd : V → E → V)
  (m : list (string * V)) (x : E) : list (string * V) :=
  map_set m (key x) (upd (default (init x) (map_get m (key x))) x).

Definition tool_init (call : MCPToolCall) : ToolMetrics :=
  {| tm_name := toolName call; tm_callCount := 0; tm_successCount := 0;
     tm_errorCount := 0; tm_avgDuration := 0%Q; lastCalled := 0; tm_errors := [] |}.

Definition tool_update (existing : ToolMetrics) (call : MCPToolCall) : ToolMetrics :=
  {| tm_name := tm_name existing;
     tm_callCount := tm_callCount existing + 1;
     tm_successCount :=
       if decide (tc_status call = success) then tm_successCount existing + 1
       else tm_successCount existing;
     tm_errorCount :=
       if decide (tc_status call = error) then tm_errorCount existing + 1
       else tm_errorCount existing;
     tm_avgDuration := tm_avgDuration existing;
     lastCalled := Z.max (lastCalled existing) (tc_timestamp call);
     tm_errors :=
       if decide (tc_status call = error) then
         if truthy_string (tc_error call)
         then push (default "" (tc_error call)) (tm_errors existing)
         else tm_errors existing
       else tm_errors existing |}.

Definition resource_init (access : MCPResourceAccess) : ResourceMetrics :=
  {| rm_uri := resourceUri access; accessCount := 0; rm_successCount := 0;
     rm_errorCount := 0; totalBytesTransferred := 0; rm_avgDuration := 0%Q |}.

Definition resource_update (existing : ResourceMetrics) (access : MCPResourceAccess)
  : ResourceMetrics :=
  {| rm_uri := rm_uri existing;
     accessCount := accessCount existing + 1;
     rm_successCount :=
       if decide (ra_status access = success) then rm_successCount existing + 1
       else rm_successCount existing;
     rm_errorCount :=
       if decide (ra_status access = error) then rm_errorCount existing + 1
       else rm_errorCount existing;
     totalBytesTransferred :=
       if truthy_number (bytesTransferred access)
       then totalBytesTransferred existing + unwrap (bytesTransferred access)
       else totalBytesTransferred existing;
     rm_avgDuration := rm_avgDuration existing |}.

Definition prompt_init (call : MCPPromptCall) : PromptMetrics :=
  {| pm_name := promptName call; pm_callCount := 0; pm_successCount := 0;
     pm_errorCount := 0; pm_avgDuration := 0%Q; totalTokens := 0 |}.

Definition prompt_update (existing : PromptMetrics) (call : MCPPromptCall)
  : PromptMetrics :=
  {| pm_name := pm_name existing;
     pm_callCount := pm_callCount existing + 1;
     pm_successCount :=
       if decide (pc_status call = success) then pm_successCount existing + 1
       else pm_successCount existing;
     pm_errorCount :=
       if decide (pc_status call = error) then pm_errorCount existing + 1
       else pm_errorCount existing;
     pm_avgDuration := pm_avgDuration existing;
     totalTokens :=
       if truthy_number (tokensGenerated call)
       then totalTokens existing + unwrap (tokensGenerated call)
       else totalTokens existing |}.





(** [1] when the proposition holds, [0] otherwise. *)
Definition indicator (P : Prop) `{Decision P} : Z := if decide P then 1 else 0.

(** The bytes, respectively the tokens, that an event adds to a total: its
    count when there is one ([undefined] and 0 add nothing). *)
Definition counted (n : option Z) : Z := default 0 n.

(** The name under which a stored event is grouped. *)
Definition tool_key (call : MCPToolCall) : string := toolName call.
Definition resource_key (access : MCPResourceAccess) : string := resourceUri access.
Definition prompt_key (call : MCPPromptCall) : string := promptName call.

(** The largest of the timestamps, and at least 0: [lastCalled] starts at 0
    and is raised by [Math.max]. *)
Definition latest (timestamps : list Z) : Z := foldr Z.max 0 timestamps.

(** The message that a stored tool call contributes to the [errors] of its
    aggregate: its error string when the status is ['error'] and the string
    is present and not empty. *)
Definition reported_error (call : MCPToolCall) : option string :=
  if decide (tc_status call = error) then
    match tc_error call with
    | Some m => if decide (m = "") then None else Some m
    | None => None
    end
  else None.

(** ** Vocabulary for the sweep *)

(** Nothing that the collector stores is older than [cutoff]. *)
Definition nothing_older (cutoff : Z) (c : Collector) : Prop :=
  Forall (λ x : MCPToolCall, cutoff ≤ tc_timestamp x) (toolCalls c)
  ∧ Forall (λ r : MCPResourceAccess, cutoff ≤ ra_timestamp r) (resourceAccesses c)
  ∧ Forall (λ p : MCPPromptCall, cutoff ≤ pc_timestamp p) (promptCalls c)
  ∧ Forall (λ e : ErrorLog, cutoff ≤ el_timestamp e) (errors c)
  ∧ Forall (λ t, cutoff ≤ t) (requestTimestamps c).

(** The stored events that are not older than [cutoff]. *)
Definition events_since (cutoff : Z) (c : Collector) : Z :=
  Z.of_nat (length (filter (λ x : MCPToolCall, cutoff ≤ tc_timestamp x) (toolCalls c)))
  + Z.of_nat (length (filter (λ r : MCPResourceAccess, cutoff ≤ ra_timestamp r)
                             (resourceAccesses c)))
  + Z.of_nat (length (filter (λ p : MCPPromptCall, cutoff ≤ pc_timestamp p)
                             (promptCalls c))).

(** ** Identifiers *)

(** The identifiers of everything the collector stores. *)
Definition stored_ids (c : Collector) : list string :=
  ((λ x : MCPToolCall, tc_id x) <$> toolCalls c)
  ++ ((λ r : MCPResourceAccess, ra_id r) <$> resourceAccesses c)
  ++ ((λ p : MCPPromptCall, pc_id p) <$> promptCalls c)
  ++ ((λ e : ErrorLog, el_id e) <$> errors c).

(** The stored identifiers are distinct and were all drawn from the
    generator. *)
Definition ids_fresh (w : World) : Prop :=
  NoDup (stored_ids (engine w))
  ∧ Forall (λ x, ∃ k, (k < ids_drawn (host w))%nat ∧ x = ids (host w) k)
           (stored_ids (engine w)).

(** The property [id] that the argument of an ingestion carries, and the
    operations whose argument carries none. *)
Definition ingestion_given_id (i : Ingestion) : option string :=
  match i with
  | IngestTool call => tc_given_id call
  | IngestResource access => ra_given_id access
  | IngestPrompt call => pc_given_id call
  end.

Definition carries_no_id (o : Op) : Prop :=
  match o with
  | op_ingest i => ingestion_given_id i = None
  | _ => True
  end.

(** The identifiers that an ingestion draws. *)
Definition drawn_ids (i : Ingestion) (w : World) : list string :=
  if decide (ingestion_status i = error)
  then [ids (host w) (ids_drawn (host w)); ids (host w) (S (ids_drawn (host w)))]
  else [ids (host w) (ids_drawn (host w))].

(** ** Vocabulary for the wrappers *)

(** The wrapper that [instrument] applies to a capability of each kind, and
    the type of the error records that its failures produce. *)
Definition wrap_of (kind : Kind) : string → Capability → Capability :=
  match kind with
  | Tool => wrapTool
  | Resource => wrapResource
  | Prompt => wrapPrompt
  end.


(** A server that has been instrumented twice. *)
Definition twice_instrumented : MCPServer := instrument (instrument echo_server).

(** * The dashboard and the command line ([dashboard.ts], [cli.ts]) *)

(** [array.sort(compare)]: a stable sort; [x] goes before the first element
    that [compare] does not put before it. *)
Fixpoint insert_by {A} (compare : A → A → Z) (x : A) (l : list A) : list A :=
  match l with
  | [] => [x]
  | y :: l' =>
      if decide (compare x y ≤ 0) then x :: y :: l' else y :: insert_by compare x l'
  end.

Definition js_sort {A} (compare : A → A → Z) (l : list A) : list A :=
  foldr (insert_by compare) [] l.

(** [(a, b) => b.callCount - a.callCount] *)
(** [a] may stand before [b] in an array sorted with [compare]. *)
Definition ordered {A} (compare : A → A → Z) (a b : A) : Prop := compare a b ≤ 0.

Definition by_callCount_desc (a b : ToolMetrics) : Z := tm_callCount b - tm_callCount a.

(** [`${error.type}`] *)
Definition ErrorType_to_string (t : ErrorType) : string :=
  match t with
  | tool => "tool"
  | resource => "resource"
  | prompt => "prompt"
  | server => "server"
  end.

Module Dashboard.

(** [formatUptime(ms)]; [Math.floor] of a quotient is [Z.div], [%] is
    [Z.rem]. *)
Definition formatUptime (ms : Z) : string :=
  let seconds := ms / 1000 in
  let minutes := seconds / 60 in
  let hours := minutes / 60 in
  let days := hours / 24 in
  if decide (0 < days) then
    pretty days +:+ "d " +:+ pretty (Z.rem hours 24) +:+ "h "
    +:+ pretty (Z.rem minutes 60) +:+ "m"
  else if decide (0 < hours) then
    pretty hours +:+ "h " +:+ pretty (Z.rem minutes 60) +:+ "m "
    +:+ pretty (Z.rem seconds 60) +:+ "s"
  else if decide (0 < minutes) then
    pretty minutes +:+ "m " +:+ pretty (Z.rem seconds 60) +:+ "s"
  else pretty seconds +:+ "s".

Section Widgets.
(** [number.toFixed(digits)] and [new Date(ms).toLocaleTimeString()], which
    the host provides. *)
Variable toFixed : Q → nat → string.
Variable toLocaleTimeString : Z → string.

Definition headers : list string := ["Tool"; "Calls"; "Errors"; "Avg (ms)"; "Success Rate"].

Definition tool_row (tool : ToolMetrics) : list string :=
  let successRate :=
    if decide (0 < tm_callCount tool)
    then toFixed (inject_Z (tm_successCount tool) / inject_Z (tm_callCount tool) * 100)%Q
                 0
    else "0" in
  [String.substring 0 18 (tm_name tool);
   pretty (tm_callCount tool);
   pretty (tm_errorCount tool);
   toFixed (tm_avgDuration tool) 2;
   successRate +:+ "%"].

(** [updateToolsTable(metrics)]: what is handed to [toolsTable.setData], the
    headers and the rows.  The sort is made in place on [metrics.tools]. *)
Definition updateToolsTable (metrics : ServerMetrics) : list string * list (list string) :=
  let data := tool_row <$> take 15 (js_sort by_callCount_desc (sm_tools metrics)) in
  (headers,
   if decide (0 < length data)%nat then data
   else [["No tools called yet"; ""; ""; ""; ""]]).

(** [`[${time}] ${error.type}:${error.name} - ${error.error}`] *)
Definition error_line (e : ErrorLog) : string :=
  "[" +:+ toLocaleTimeString (el_timestamp e) +:+ "] "
  +:+ ErrorType_to_string (el_type e) +:+ ":" +:+ el_name e +:+ " - " +:+ el_error e.

(** [updateErrorsLog(metrics)]: the messages handed to [errorsLog.log], in
    the order of the calls. *)
Definition updateErrorsLog (metrics : ServerMetrics) : list string :=
  let recentErrors := reverse (slice_last 20 (sm_errors metrics)) in
  error_line <$> recentErrors.
End Widgets.

End Dashboard.

Module Cli.

(** [formatUptime(ms)] of [cli.ts]. *)
Definition formatUptime (ms : Z) : string :=
  let seconds := ms / 1000 in
  let minutes := seconds / 60 in
  let hours := minutes / 60 in
  let days := hours / 24 in
  if decide (0 < days) then
    pretty days +:+ "d " +:+ pretty (Z.rem hours 24) +:+ "h "
    +:+ pretty (Z.rem minutes 60) +:+ "m"
  else if decide (0 < hours) then
    pretty hours +:+ "h " +:+ pretty (Z.rem minutes 60) +:+ "m"
  else if decide (0 < minutes) then
    pretty minutes +:+ "m " +:+ pretty (Z.rem seconds 60) +:+ "s"
  else pretty seconds +:+ "s".

End Cli.

(** The uptime made of whole days, hours, minutes and seconds and a rest
    below one second. *)
Definition uptime_of (d h m s rest : Z) : Z :=
  (((d * 24 + h) * 60 + m) * 60 + s) * 1000 + rest.

(** Each field of an uptime is in its range. *)
Definition uptime_fields (d h m s rest : Z) : Prop :=
  0 ≤ d ∧ 0 ≤ h < 24 ∧ 0 ≤ m < 60 ∧ 0 ≤ s < 60 ∧ 0 ≤ rest < 1000.

(** * Properties *)

(** ** Numbers and strings *)

(** [String(x)] on Numbers: the numeral up to 21 digits, with the shortest
    digits that denote the double, and the exponent notation beyond. *)
Example Number_toString_examples :
  Number_toString 0 = "0"
  ∧ Number_toString (-45) = "-45"
  ∧ Number_toString (2 ^ 53) = "9007199254740992"
  ∧ Number_toString (2 ^ 53 + 1) = "9007199254740992"
  ∧ Number_toString (2 ^ 60) = "1152921504606847000"
  ∧ Number_toString 123456789012345678901 = "123456789012345680000"
  ∧ Number_toString (10 ^ 21) = "1e+21"
  ∧ Number_toString (2 ^ 70) = "1.1805916207174113e+21"
  ∧ Number_toString (10 ^ 23) = "1e+23"
  ∧ Number_toString (2 ^ 1024) = "Infinity".
Proof. by vm_compute. Qed.

Example String_of_examples :
  String_of (JSObject [("a", JSNumber 1)]) = Returns "[object Object]"
  ∧ String_of (JSObject [("toString", JSNumber 1)]) = Throws (JSTypeError cannot_convert)
  ∧ String_of (JSNumber (10 ^ 21)) = Returns "1e+21"
  ∧ String_of (JSError "boom") = Returns "Error: boom"
  ∧ error_message (JSError "boom") = Returns "boom"
  ∧ error_message (JSString "") = Returns "".
Proof. by vm_compute. Qed.

(** The mean of the durations 100, 200 and 50 with rounded operations is the
    quotient of 350 by 3: the sum is exact. *)
Example mean_of_example :
  mean_of [100; 200; 50] = Double.div (Double.of_Z 350) (Double.of_Z 3).
Proof. by vm_compute. Qed.

(** ** Running the monad *)

Lemma run_bind {A B} (m : M A) (f : A → M B) (w : World) :
  (m ≫= f) w = f (eval m w) (exec m w).
Proof. unfold mbind, M_bind, eval, exec. by destruct (m w). Qed.

Lemma exec_bind {A B} (m : M A) (f : A → M B) (w : World) :
  exec (m ≫= f) w = exec (f (eval m w)) (exec m w).
Proof. unfold exec at 1. by rewrite run_bind. Qed.

Lemma eval_bind {A B} (m : M A) (f : A → M B) (w : World) :
  eval (m ≫= f) w = eval (f (eval m w)) (exec m w).
Proof. unfold eval at 1. by rewrite run_bind. Qed.

Lemma engine_tick (w : World) : engine (tick w) = engine w.
Proof. reflexivity. Qed.

(** ** What one ingestion does to each log *)

(** An ingestion computes once the status and the optional duration of its
    argument are known. *)
Ltac by_ingestion :=
  match goal with
  | x : ToolCallInput |- _ => destruct x as [? ? ? ? [?|] [] ? ? ?]
  | x : ResourceAccessInput |- _ => destruct x as [? ? ? ? [?|] [] ? ?]
  | x : PromptCallInput |- _ => destruct x as [? ? ? ? [?|] [] ? ?]
  end;
  simpl; rewrite ?app_nil_r; repeat split.

Section Ingestion.
Variable w : World.

Lemma recordToolCall_toolCalls (call : ToolCallInput) :
  toolCalls (engine (exec (recordToolCall call) w))
  = toolCalls (engine w)
      ++ [{| tc_id := default (next_id w) (tc_given_id call);
             tc_timestamp := default (now_of w) (tc_given_timestamp call);
             tc_call := call |}].
Proof. by_ingestion. Qed.

Lemma recordToolCall_others (call : ToolCallInput) :
  let e' := engine (exec (recordToolCall call) w) in
  resourceAccesses e' = resourceAccesses (engine w)
  ∧ promptCalls e' = promptCalls (engine w)
  ∧ startTime e' = startTime (engine w)
  ∧ config e' = config (engine w).
Proof. by_ingestion. Qed.

Lemma recordToolCall_latencies (call : ToolCallInput) :
  latencies (engine (exec (recordToolCall call) w))
  = latencies (engine w) ++ option_list (tc_duration call).
Proof. by_ingestion. Qed.

Lemma recordToolCall_requestTimestamps (call : ToolCallInput) :
  requestTimestamps (engine (exec (recordToolCall call) w))
  = requestTimestamps (engine w) ++ [now_of (tick w)].
Proof. by_ingestion. Qed.

Lemma recordToolCall_errors (call : ToolCallInput) :
  errors (engine (exec (recordToolCall call) w))
  = errors (engine w)
      ++ (if decide (tc_status call = error) then
            [{| el_id := ids (host w) (S (ids_drawn (host w)));
                el_timestamp := now_of (tick (tick w));
                el_fields := {| el_type := tool; el_name := toolName call;
                                el_error := or_unknown (tc_error call);
                                stackTrace := None |} |}]
          else []).
Proof. by_ingestion. Qed.

Lemma recordResourceAccess_resourceAccesses (access : ResourceAccessInput) :
  resourceAccesses (engine (exec (recordResourceAccess access) w))
  = resourceAccesses (engine w)
      ++ [{| ra_id := default (next_id w) (ra_given_id access);
             ra_timestamp := default (now_of w) (ra_given_timestamp access);
             ra_access := access |}].
Proof. by_ingestion. Qed.

Lemma recordResourceAccess_others (access : ResourceAccessInput) :
  let e' := engine (exec (recordResourceAccess access) w) in
  toolCalls e' = toolCalls (engine w)
  ∧ promptCalls e' = promptCalls (engine w)
  ∧ startTime e' = startTime (engine w)
  ∧ config e' = config (engine w).
Proof. by_ingestion. Qed.

Lemma recordResourceAccess_errors (access : ResourceAccessInput) :
  errors (engine (exec (recordResourceAccess access) w))
  = errors (engine w)
      ++ (if decide (ra_status access = error) then
            [{| el_id := ids (host w) (S (ids_drawn (host w)));
                el_timestamp := now_of (tick (tick w));
                el_fields := {| el_type := resource; el_name := resourceUri access;
                                el_error := or_unknown (ra_error access);
                                stackTrace := None |} |}]
          else []).
Proof. by_ingestion. Qed.

Lemma recordPromptCall_promptCalls (call : PromptCallInput) :
  promptCalls (engine (exec (recordPromptCall call) w))
  = promptCalls (engine w)
      ++ [{| pc_id := default (next_id w) (pc_given_id call);
             pc_timestamp := default (now_of w) (pc_given_timestamp call);
             pc_call := call |}].
Proof. by_ingestion. Qed.

Lemma recordPromptCall_others (call : PromptCallInput) :
  let e' := engine (exec (recordPromptCall call) w) in
  toolCalls e' = toolCalls (engine w)
  ∧ resourceAccesses e' = resourceAccesses (engine w)
  ∧ startTime e' = startTime (engine w)
  ∧ config e' = config (engine w).
Proof. by_ingestion. Qed.

Lemma recordPromptCall_errors (call : PromptCallInput) :
  errors (engine (exec (recordPromptCall call) w))
  = errors (engine w)
      ++ (if decide (pc_status call = error) then
            [{| el_id := ids (host w) (S (ids_drawn (host w)));
                el_timestamp := now_of (tick (tick w));
                el_fields := {| el_type := prompt; el_name := promptName call;
                                el_error := or_unknown (pc_error call);
                                stackTrace := None |} |}]
          else []).
Proof. by_ingestion. Qed.
End Ingestion.

(** ** Error records *)

Lemma or_unknown_fallback (supplied : option string) :
  or_unknown supplied = message_or_fallback supplied.
Proof. by destruct supplied as [[|c s]|]. Qed.

(** C10. An ingestion of any of the three kinds with status ['error'] appends
    exactly one error record, whose type is the ingesting kind, whose name is
    the event's name and whose message is the supplied error string, or
    ['Unknown error'] when that string is absent or empty; an ingestion with
    another status leaves the error log as it was. *)
Theorem error_record_derivation (w : World) :
  (∀ call : ToolCallInput,
     let errors' := errors (engine (exec (recordToolCall call) w)) in
     match tc_status call with
     | error => ∃ e, errors' = errors (engine w) ++ [e]
                     ∧ el_type e = tool ∧ el_name e = toolName call
                     ∧ el_error e = message_or_fallback (tc_error call)
     | _ => errors' = errors (engine w)
     end)
  ∧ (∀ access : ResourceAccessInput,
       let errors' := errors (engine (exec (recordResourceAccess access) w)) in
       match ra_status access with
       | error => ∃ e, errors' = errors (engine w) ++ [e]
                       ∧ el_type e = resource ∧ el_name e = resourceUri access
                       ∧ el_error e = message_or_fallback (ra_error access)
       | _ => errors' = errors (engine w)
       end)
  ∧ (∀ call : PromptCallInput,
       let errors' := errors (engine (exec (recordPromptCall call) w)) in
       match pc_status call with
       | error => ∃ e, errors' = errors (engine w) ++ [e]
                       ∧ el_type e = prompt ∧ el_name e = promptName call
                       ∧ el_error e = message_or_fallback (pc_error call)
       | _ => errors' = errors (engine w)
       end).
Proof.
  split; [|split]; intros x; cbv zeta.
  - rewrite recordToolCall_errors.
    destruct (tc_status x) eqn:E; simpl; rewrite ?app_nil_r; try done.
    eexists; split; [done|]. by rewrite or_unknown_fallback.
  - rewrite recordResourceAccess_errors.
    destruct (ra_status x) eqn:E; simpl; rewrite ?app_nil_r; try done.
    eexists; split; [done|]. by rewrite or_unknown_fallback.
  - rewrite recordPromptCall_errors.
    destruct (pc_status x) eqn:E; simpl; rewrite ?app_nil_r; try done.
    eexists; split; [done|]. by rewrite or_unknown_fallback.
Qed.

(** ** The snapshot does not write *)

Lemma engine_calculatePerformance (w : World) :
  engine (exec calculatePerformance w) = engine w.
Proof. reflexivity. Qed.

(** C7. [getMetrics] leaves every stored log and the start time as they were:
    the collector's state after the snapshot is its state before. *)
Theorem getMetrics_read_only (w : World) :
  let before := engine w in
  let after := engine (exec getMetrics w) in
  toolCalls after = toolCalls before
  ∧ resourceAccesses after = resourceAccesses before
  ∧ promptCalls after = promptCalls before
  ∧ errors after = errors before
  ∧ latencies after = latencies before
  ∧ requestTimestamps after = requestTimestamps before
  ∧ startTime after = startTime before
  ∧ after = before.
Proof. repeat split. Qed.

(** ** The eviction sweep *)

Lemma evicted_before_filter {A} (ts : A → Z) (cutoff : Z) (old : list A) :
  evicted_before ts cutoff old (filter (λ x, cutoff ≤ ts x) old).
Proof.
  split; [|split].
  - apply Forall_forall. intros x Hx. by apply list_elem_of_filter in Hx as [? _].
  - apply sublist_filter.
  - done.
Qed.

Lemma slice_last_suffix {A} (n : Z) (l : list A) : slice_last n l `suffix_of` l.
Proof. apply suffix_drop. Qed.

Lemma slice_last_length {A} (n : Z) (l : list A) :
  0 ≤ n → Z.of_nat (length (slice_last n l)) = Z.min (Z.of_nat (length l)) n.
Proof. intros Hn. unfold slice_last. rewrite length_drop. lia. Qed.

(** C8. One run of [cleanup] at time [now]: in the tool-call, resource-access,
    prompt-call and error logs and in the timestamp log no entry older than
    now − retentionDays·24·60·60·1000 remains and every other entry is kept in
    its original order; the duration log keeps its most recent 10,000 entries
    (all of them when there are fewer). *)
Theorem cleanup_postcondition (w : World) :
  let cutoff := cutoff_of w in
  let old := engine w in
  let new := engine (exec cleanup w) in
  evicted_before tc_timestamp cutoff (toolCalls old) (toolCalls new)
  ∧ evicted_before ra_timestamp cutoff (resourceAccesses old) (resourceAccesses new)
  ∧ evicted_before pc_timestamp cutoff (promptCalls old) (promptCalls new)
  ∧ evicted_before el_timestamp cutoff (errors old) (errors new)
  ∧ evicted_before id cutoff (requestTimestamps old) (requestTimestamps new)
  ∧ latencies new `suffix_of` latencies old
  ∧ Z.of_nat (length (latencies new)) = Z.min (Z.of_nat (length (latencies old))) 10000
  ∧ startTime new = startTime old
  ∧ config new = config old.
Proof.
  cbv zeta. repeat split_and; try apply evicted_before_filter.
  - apply slice_last_suffix.
  - by apply slice_last_length.
  - done.
  - done.
Qed.

(** ** Percentiles *)

Lemma sort_ascending_sorted (xs : list Z) : StronglySorted Z.le (sort_ascending xs).
Proof. apply StronglySorted_merge_sort; apply _. Qed.

Lemma sort_ascending_perm (xs : list Z) : sort_ascending xs ≡ₚ xs.
Proof. apply merge_sort_Permutation. Qed.

Lemma sort_ascending_length (xs : list Z) : length (sort_ascending xs) = length xs.
Proof. apply Permutation_length, sort_ascending_perm. Qed.

Lemma sorted_lookup_le (s : list Z) :
  StronglySorted Z.le s →
  ∀ (i j : nat) (a b : Z), (i ≤ j)%nat → s !! i = Some a → s !! j = Some b → a ≤ b.
Proof.
  induction 1 as [|x l Hl IH Hx]; intros i j a b Hij Ha Hb.
  - by rewrite lookup_nil in Ha.
  - destruct i as [|i], j as [|j]; simpl in *.
    + assert (a = b) by congruence. lia.
    + injection Ha as <-. eapply Forall_lookup_1 in Hx; eauto.
    + lia.
    + eapply IH; [|eassumption..]. lia.
Qed.

Lemma ceiling_rank_bounds (n : nat) (p : Q) :
  (0 < n)%nat → (0 < p)%Q → (p <= 1)%Q →
  1 ≤ Qceiling (inject_Z (Z.of_nat n) * p) ≤ Z.of_nat n.
Proof.
  intros Hn Hp Hp1.
  assert (Hn' : (0 < inject_Z (Z.of_nat n))%Q).
  { rewrite <- (Zlt_Qlt 0). lia. }
  split.
  - assert (H : 0 < Qceiling (inject_Z (Z.of_nat n) * p)); [|lia].
    rewrite Zlt_Qlt. eapply Qlt_le_trans; [|apply Qle_ceiling].
    by apply Qmult_lt_0_compat.
  - rewrite <- (Qceiling_Z (Z.of_nat n)) at 2.
    apply Qceiling_resp_le.
    rewrite <- (Qmult_1_r (inject_Z (Z.of_nat n))) at 2.
    apply Qmult_le_l; done.
Qed.

(** For 0 < p ≤ 1 the index the code reads is the clamped nearest-rank index
    and lies inside the array. *)
Lemma percentile_in_range (sorted : list Z) (p : Q) :
  sorted ≠ [] → (0 < p)%Q → (p <= 1)%Q →
  percentile sorted p = sorted !! nearest_rank_index (length sorted) p
  ∧ (nearest_rank_index (length sorted) p < length sorted)%nat.
Proof.
  intros Hne Hp Hp1.
  assert (Hn : (0 < length sorted)%nat) by (destruct sorted; simpl; [done|lia]).
  pose proof (ceiling_rank_bounds _ p Hn Hp Hp1) as Hc.
  unfold percentile, nearest_rank_index.
  destruct (decide (length sorted = 0%nat)); [lia|].
  split; [f_equal|]; lia.
Qed.

Lemma percentile_empty (p : Q) : percentile [] p = Some 0.
Proof. reflexivity. Qed.

Lemma nearest_rank_index_mono (n : nat) (p q : Q) :
  (p <= q)%Q → (nearest_rank_index n p ≤ nearest_rank_index n q)%nat.
Proof.
  intros Hpq. unfold nearest_rank_index.
  assert (Qceiling (inject_Z (Z.of_nat n) * p) ≤ Qceiling (inject_Z (Z.of_nat n) * q)).
  { apply Qceiling_resp_le. destruct n as [|n].
    - rewrite !Qmult_0_l. apply Qle_refl.
    - apply Qmult_le_l; [|done]. rewrite <- (Zlt_Qlt 0). lia. }
  lia.
Qed.

(** The percentile fields of a snapshot are [percentile] of the sorted copy of
    the duration log. *)
Lemma getMetrics_percentiles (w : World) :
  let perf := performance (eval getMetrics w) in
  let sorted := sort_ascending (latencies (engine w)) in
  p50Latency perf = percentile sorted (50 # 100)
  ∧ p95Latency perf = percentile sorted (95 # 100)
  ∧ p99Latency perf = percentile sorted (99 # 100)
  ∧ avgLatency perf = mean sorted.
Proof. repeat split. Qed.

Lemma percentile_of_log (log : list Z) (p : Q) :
  (0 < p)%Q → (p <= 1)%Q →
  percentile (sort_ascending log) p
  = if decide (length log = 0%nat) then Some 0
    else sort_ascending log !! nearest_rank_index (length log) p.
Proof.
  intros Hp Hp1. destruct (decide (length log = 0%nat)) as [E|E].
  - apply length_zero_iff_nil in E as ->. reflexivity.
  - rewrite <- (sort_ascending_length log).
    apply percentile_in_range; [|done..].
    intros E'. apply E. by rewrite <- sort_ascending_length, E'.
Qed.

(** C2. The percentiles of a snapshot are nearest-rank: with [n] the size of
    the duration log, each of p50, p95 and p99 is 0 when n = 0 and otherwise
    the element at index ceil(n·p) − 1, clamped to [0, n − 1], of the log
    sorted ascending.  After ten tool calls with the durations
    10, 20, 30, 40, 50, 100, 200, 300, 400, 500 on a new collector the average
    latency is 165, p50 is 50, p95 is 500 and p99 is 500. *)
Theorem percentile_nearest_rank :
  (∀ w : World,
     let log := latencies (engine w) in
     let sorted := sort_ascending log in
     let n := length log in
     let perf := performance (eval getMetrics w) in
     Sorted Z.le sorted ∧ sorted ≡ₚ log
     ∧ p50Latency perf
       = (if decide (n = 0%nat) then Some 0
          else sorted !! nearest_rank_index n (50 # 100))
     ∧ p95Latency perf
       = (if decide (n = 0%nat) then Some 0
          else sorted !! nearest_rank_index n (95 # 100))
     ∧ p99Latency perf
       = (if decide (n = 0%nat) then Some 0
          else sorted !! nearest_rank_index n (99 # 100))
     ∧ is_Some (p50Latency perf) ∧ is_Some (p95Latency perf)
     ∧ is_Some (p99Latency perf))
  ∧ (∀ (cfg : MonitorConfig) (h : Host),
       let calls :=
         (λ d, a_call "test-tool" success (Some d) None)
           <$> [10; 20; 30; 40; 50; 100; 200; 300; 400; 500] in
       let w := exec (tool_calls_in_turn calls) (new_TelemetryCollector cfg h) in
       let perf := performance (eval getMetrics w) in
       latencies (engine w) = [10; 20; 30; 40; 50; 100; 200; 300; 400; 500]
       ∧ (avgLatency perf == 165)%Q
       ∧ p50Latency perf = Some 50
       ∧ p95Latency perf = Some 500
       ∧ p99Latency perf = Some 500).
Proof.
  split.
  - intros w log sorted n perf.
    destruct (getMetrics_percentiles w) as (E50 & E95 & E99 & _).
    fold perf in E50, E95, E99. fold log sorted in E50, E95, E99.
    assert (H50 := percentile_of_log log (50 # 100) eq_refl ltac:(done)).
    assert (H95 := percentile_of_log log (95 # 100) eq_refl ltac:(done)).
    assert (H99 := percentile_of_log log (99 # 100) eq_refl ltac:(done)).
    fold sorted n in H50, H95, H99.
    assert (Hsome : ∀ p, (0 < p)%Q → (p <= 1)%Q → is_Some (percentile sorted p)).
    { intros p Hp Hp1. destruct (decide (sorted = [])) as [->|Hne]; [by eexists|].
      destruct (percentile_in_range sorted p Hne Hp Hp1) as [-> Hlt].
      by apply lookup_lt_is_Some. }
    split_and!.
    + apply StronglySorted_Sorted, sort_ascending_sorted.
    + apply sort_ascending_perm.
    + congruence.
    + congruence.
    + congruence.
    + rewrite E50. by apply Hsome.
    + rewrite E95. by apply Hsome.
    + rewrite E99. by apply Hsome.
  - intros cfg h. vm_compute. repeat split.
Qed.

(** C6. For a non-empty duration log the snapshot has p50 ≤ p95 ≤ p99. *)
Theorem percentile_monotone (w : World) :
  latencies (engine w) ≠ [] →
  let perf := performance (eval getMetrics w) in
  ∃ a b c : Z,
    p50Latency perf = Some a ∧ p95Latency perf = Some b ∧ p99Latency perf = Some c
    ∧ a ≤ b ∧ b ≤ c.
Proof.
  intros Hne perf.
  destruct (getMetrics_percentiles w) as (E50 & E95 & E99 & _).
  fold perf in E50, E95, E99.
  set (sorted := sort_ascending (latencies (engine w))) in *.
  assert (Hs : sorted ≠ []).
  { intros E. apply Hne, length_zero_iff_nil.
    by rewrite <- sort_ascending_length; fold sorted; rewrite E. }
  destruct (percentile_in_range sorted (50 # 100) Hs eq_refl ltac:(done)) as [P50 L50].
  destruct (percentile_in_range sorted (95 # 100) Hs eq_refl ltac:(done)) as [P95 L95].
  destruct (percentile_in_range sorted (99 # 100) Hs eq_refl ltac:(done)) as [P99 L99].
  destruct (lookup_lt_is_Some_2 _ _ L50) as [a Ha].
  destruct (lookup_lt_is_Some_2 _ _ L95) as [b Hb].
  destruct (lookup_lt_is_Some_2 _ _ L99) as [c Hc].
  exists a, b, c. split_and!; try congruence.
  - eapply (sorted_lookup_le sorted); [apply sort_ascending_sorted| |done..].
    by apply nearest_rank_index_mono.
  - eapply (sorted_lookup_le sorted); [apply sort_ascending_sorted| |done..].
    by apply nearest_rank_index_mono.
Qed.

Lemma percentile_monotone_witness :
  latencies (engine read_file_world) ≠ []
  ∧ ∃ a b c : Z,
      p50Latency (performance (eval getMetrics read_file_world)) = Some a
      ∧ p95Latency (performance (eval getMetrics read_file_world)) = Some b
      ∧ p99Latency (performance (eval getMetrics read_file_world)) = Some c
      ∧ a ≤ b ∧ b ≤ c.
Proof.
  split.
  - vm_compute. discriminate.
  - apply (percentile_monotone read_file_world). vm_compute. discriminate.
Defined.

(** ** Rates *)

Lemma getMetrics_rates (w : World) :
  let perf := performance (eval getMetrics w) in
  let total := total_requests (engine w) in
  let errs := Z.of_nat (length (errors (engine w))) in
  errorRate perf = errorRate_of errs total
  ∧ successRate perf = successRate_of errs total
  ∧ totalRequests (eval getMetrics w) = total.
Proof. repeat split. Qed.

(** C4, as the code has it.  In every state, with [total] the number of
    stored tool-call, resource-access and prompt-call records and [errs] the
    size of the error log, the snapshot has
    errorRate = (errs ÷ total) × 100 and
    successRate = ((total − errs) ÷ total) × 100, each operation rounded to
    a double, and errorRate = 0, successRate = 100 when total = 0.  Eight
    tool calls with status ['success'] and two with status ['error'] on one
    name, on a new collector, give successRate 80 and errorRate 20. *)
Theorem success_error_rate :
  (∀ w : World,
     let perf := performance (eval getMetrics w) in
     let total :=
       Z.of_nat (length (toolCalls (engine w)))
       + Z.of_nat (length (resourceAccesses (engine w)))
       + Z.of_nat (length (promptCalls (engine w))) in
     let errs := Z.of_nat (length (errors (engine w))) in
     totalRequests (eval getMetrics w) = total
     ∧ errorRate perf
       = (if decide (total = 0) then Double.of_Z 0
          else Double.mul (Double.div (Double.of_Z errs) (Double.of_Z total))
                          (Double.of_Z 100))
     ∧ successRate perf
       = (if decide (total = 0) then Double.of_Z 100
          else Double.mul
                 (Double.div (Double.sub (Double.of_Z total) (Double.of_Z errs))
                             (Double.of_Z total))
                 (Double.of_Z 100)))
  ∧ (∀ (cfg : MonitorConfig) (h : Host),
       let calls :=
         replicate 8 (a_call "tool" success (Some 100) None)
         ++ replicate 2 (a_call "tool" error (Some 50) (Some "Test error")) in
       let w := exec (tool_calls_in_turn calls) (new_TelemetryCollector cfg h) in
       let perf := performance (eval getMetrics w) in
       successRate perf = Double.of_Z 80 ∧ errorRate perf = Double.of_Z 20).
Proof.
  split.
  - intros w perf total errs.
    destruct (getMetrics_rates w) as (Ee & Es & Et).
    fold perf in Ee, Es. change (total_requests (engine w)) with total in *.
    fold errs in Ee, Es.
    split; [done|]. rewrite Es, Ee.
    assert (0 ≤ total) by (unfold total; lia).
    unfold errorRate_of, successRate_of.
    destruct (decide (total = 0)) as [E0|E0];
      destruct (decide (0 < total)) as [Hpos|Hpos]; try lia; by split.
  - intros cfg h. vm_compute. by split.
Qed.

(** C4, as stated, fails: with one error among three requests the snapshot
    has errorRate = 4691249611844266 × 2^-47 (33.33333333333333) and
    successRate = 4691249611844266 × 2^-46 (66.66666666666666), but
    100 − errorRate is the next double, 4691249611844267 × 2^-46
    (66.66666666666667). *)
Lemma successRate_is_not_the_complement :
  Z.of_nat (length (errors (engine one_in_three_world))) = 1
  ∧ total_requests (engine one_in_three_world) = 3
  ∧ errorRate (performance (eval getMetrics one_in_three_world))
    = SpecFloat.S754_finite false 4691249611844266 (-47)
  ∧ successRate (performance (eval getMetrics one_in_three_world))
    = SpecFloat.S754_finite false 4691249611844266 (-46)
  ∧ Double.sub (Double.of_Z 100)
               (errorRate (performance (eval getMetrics one_in_three_world)))
    = SpecFloat.S754_finite false 4691249611844267 (-46)
  ∧ Double.eqb (successRate (performance (eval getMetrics one_in_three_world)))
               (Double.sub (Double.of_Z 100)
                           (errorRate (performance (eval getMetrics one_in_three_world))))
    = false.
Proof. vm_compute. split_and!; reflexivity. Qed.

(** ** The insertion-ordered map *)

Section JSMapFacts.
Context {V : Type}.
Implicit Types (m : list (string * V)) (k : string) (v : V).

Lemma map_get_set m k v k' :
  map_get (map_set m k v) k' = if decide (k' = k) then Some v else map_get m k'.
Proof.
  induction m as [|[k0 v0] m IH]; simpl.
  - by destruct (decide (k' = k)).
  - destruct (decide (k = k0)) as [->|Hne]; simpl.
    + by destruct (decide (k' = k0)).
    + destruct (decide (k' = k0)) as [->|]; [|apply IH].
      destruct (decide (k0 = k)); congruence.
Qed.

Lemma map_set_Forall (P : string * V → Prop) m k v :
  Forall P m → P (k, v) → Forall P (map_set m k v).
Proof.
  intros Hm Hkv. induction Hm as [|[k0 v0] m H0 Hm IH]; simpl.
  - by constructor.
  - destruct (decide (k = k0)); constructor; auto.
Qed.

Lemma map_get_elem m k v : map_get m k = Some v → (k, v) ∈ m.
Proof.
  induction m as [|[k0 v0] m IH]; simpl; [done|].
  destruct (decide (k = k0)) as [->|]; intros E.
  - injection E as ->. left.
  - right. auto.
Qed.
End JSMapFacts.

(** ** Per-name aggregates of tool calls *)

Lemma count_status_app (status : Status) (xs ys : list ToolCallInput) :
  count_status status (xs ++ ys) = count_status status xs + count_status status ys.
Proof. unfold count_status. rewrite filter_app, length_app. lia. Qed.

Lemma calls_on_snoc (name : string) (log : list MCPToolCall) (call : MCPToolCall) :
  calls_on name (log ++ [call])
  = calls_on name log ++ (if decide (toolName call = name) then [call] else []).
Proof.
  unfold calls_on. by rewrite filter_app.
Qed.

Lemma tool_visit_named (m : list (string * ToolMetrics)) (call : MCPToolCall) :
  named_by_key m → named_by_key (tool_visit m call).
Proof.
  intros Hm. unfold tool_visit. apply map_set_Forall; [done|]. simpl.
  destruct (map_get m (toolName call)) as [e|] eqn:E; simpl; [|done].
  apply map_get_elem in E. unfold named_by_key in Hm.
  rewrite Forall_forall in Hm. apply (Hm _ E).
Qed.

Lemma tool_visit_entry_ok (log : list MCPToolCall) (m : list (string * ToolMetrics))
  (call : MCPToolCall) :
  (∀ name, entry_ok log name (map_get m name)) →
  ∀ name, entry_ok (log ++ [call]) name (map_get (tool_visit m call) name).
Proof.
  intros Hm name. unfold tool_visit. rewrite map_get_set.
  specialize (Hm name). unfold entry_ok, counts_ok in *.
  rewrite calls_on_snoc.
  destruct (decide (name = toolName call)) as [->|Hne].
  - destruct (decide (toolName call = toolName call)); [|done].
    split; [by destruct (calls_on (toolName call) log)|].
    rewrite fmap_app, !count_status_app, length_app. simpl.
    unfold count_status at 2 4. rewrite !filter_cons, !filter_nil.
    destruct (map_get m (toolName call)) as [old|]; simpl.
    + destruct Hm as (_ & -> & -> & -> & ->).
      split; [done|]. split; [lia|].
      destruct (tc_status call); repeat case_decide; simpl; try done; lia.
    + rewrite Hm. simpl. unfold count_status. simpl.
      split; [done|]. split; [done|].
      destruct (tc_status call); repeat case_decide; simpl; try done.
  - destruct (decide (toolName call = name)); [congruence|].
    by rewrite app_nil_r.
Qed.

Lemma first_pass_ok (log : list MCPToolCall) :
  named_by_key (fold_left tool_visit log [])
  ∧ ∀ name, entry_ok log name (map_get (fold_left tool_visit log []) name).
Proof.
  induction log as [|call log IH] using rev_ind.
  - split; [constructor|done].
  - rewrite fold_left_app. simpl. destruct IH as [IH1 IH2]. split.
    + by apply tool_visit_named.
    + by apply tool_visit_entry_ok.
Qed.

Lemma find_tool_average (calls : list MCPToolCall) (m : list (string * ToolMetrics))
  (name : string) :
  named_by_key m →
  find_tool (map_values (tool_average calls <$> m)) name
  = (λ e, (tool_average calls (name, e)).2) <$> map_get m name.
Proof.
  unfold find_tool, map_values. induction 1 as [|[k e] m Hk Hm IH]; [done|].
  simpl in *. subst k.
  destruct (decide (tm_name e = name)) as [<-|Hne]; simpl.
  - by destruct (decide (tm_name e = tm_name e)).
  - destruct (decide (name = tm_name e)); [congruence|].
    rewrite <- IH. change (list_fmap _ _ snd (list_fmap _ _ (tool_average calls) m))
      with ((tool_average calls <$> m).*2).
    by destruct (list_find _ _) as [[i t]|].
Qed.

(** The aggregate that a snapshot reports under [name], read off the log. *)
Lemma calculateToolMetrics_find (c : Collector) (name : string) :
  match find_tool (calculateToolMetrics c) name with
  | None => calls_on name (toolCalls c) = []
  | Some t =>
      calls_on name (toolCalls c) ≠ []
      ∧ counts_ok (toolCalls c) name t
      ∧ tm_avgDuration t = mean (tool_durations (toolCalls c) name)
  end.
Proof.
  unfold calculateToolMetrics.
  destruct (first_pass_ok (toolCalls c)) as [Hn Hok].
  rewrite find_tool_average by done.
  specialize (Hok name). unfold entry_ok in Hok.
  destruct (map_get _ name) as [e|]; simpl; [|done].
  destruct Hok as [Hne Hc]. by repeat split; try apply Hc.
Qed.








(** ** Calls that are still pending *)

Lemma getMetrics_counts (w : World) :
  let snapshot := eval getMetrics w in
  let c := engine w in
  totalRequests snapshot = total_requests c
  ∧ successfulRequests snapshot
    = Z.of_nat (length (filter (λ x : MCPToolCall, tc_status x = success) (toolCalls c)))
      + Z.of_nat (length (filter (λ r : MCPResourceAccess, ra_status r = success)
                                 (resourceAccesses c)))
      + Z.of_nat (length (filter (λ p : MCPPromptCall, pc_status p = success)
                                 (promptCalls c)))
  ∧ failedRequests snapshot = totalRequests snapshot - successfulRequests snapshot
  ∧ sm_tools snapshot = calculateToolMetrics c
  ∧ sm_errors snapshot = slice_last 100 (errors c).
Proof.
  cbv zeta. split_and!; try reflexivity.
  change (successfulRequests (eval getMetrics w)) with
    (Z.of_nat (length
       ((a_tool <$> filter (λ x : MCPToolCall, tc_status x = success)
                           (toolCalls (engine w)))
        ++ (a_resource <$> filter (λ r : MCPResourceAccess, ra_status r = success)
                                  (resourceAccesses (engine w)))
        ++ (a_prompt <$> filter (λ p : MCPPromptCall, pc_status p = success)
                                (promptCalls (engine w)))))).
  rewrite !length_app, !length_fmap. lia.
Qed.

Lemma error_count_log (c : Collector) (name : string) :
  error_count (calculateToolMetrics c) name
  = count_status error (tc_call <$> calls_on name (toolCalls c)).
Proof.
  unfold error_count. pose proof (calculateToolMetrics_find c name) as H.
  destruct (find_tool (calculateToolMetrics c) name) as [t|]; simpl.
  - by destruct H as (_ & (_ & _ & _ & ->) & _).
  - by rewrite H.
Qed.

Lemma total_requests_recordToolCall (w : World) (call : ToolCallInput) :
  total_requests (engine (exec (recordToolCall call) w))
  = total_requests (engine w) + 1.
Proof.
  unfold total_requests. rewrite recordToolCall_toolCalls, length_app.
  destruct (recordToolCall_others w call) as (-> & -> & _). simpl. lia.
Qed.

(** C9, as the code has it. A tool call ingested with status ['pending']
    raises totalRequests and failedRequests by 1 and leaves successfulRequests,
    the error log and every per-name errorCount as they were, no error record
    being created; errorRate becomes
    (size of the error log ÷ (total requests + 1)) × 100, and both rates are
    what they would be had the call been ingested with status ['success']. *)
Theorem pending_accounting (w : World) (call : ToolCallInput) :
  tc_status call = pending →
  let w' := exec (recordToolCall call) w in
  let before := eval getMetrics w in
  let after := eval getMetrics w' in
  let as_success := eval getMetrics (exec (recordToolCall (with_status success call)) w) in
  totalRequests after = totalRequests before + 1
  ∧ successfulRequests after = successfulRequests before
  ∧ failedRequests after = failedRequests before + 1
  ∧ errors (engine w') = errors (engine w)
  ∧ sm_errors after = sm_errors before
  ∧ (∀ name, error_count (sm_tools after) name = error_count (sm_tools before) name)
  ∧ errorRate (performance after)
    = Double.mul
        (Double.div (Double.of_Z (Z.of_nat (length (errors (engine w)))))
                    (Double.of_Z (totalRequests before + 1)))
        (Double.of_Z 100)
  ∧ errorRate (performance after) = errorRate (performance as_success)
  ∧ successRate (performance after) = successRate (performance as_success).
Proof.
  intros Hp w' before after as_success.
  destruct (getMetrics_counts w) as (Bt & Bs & Bf & Btools & Berr).
  destruct (getMetrics_counts w') as (At & As & Af & Atools & Aerr).
  fold before in Bt, Bs, Bf, Btools, Berr. fold after in At, As, Af, Atools, Aerr.
  assert (Herr : errors (engine w') = errors (engine w)).
  { unfold w'. rewrite recordToolCall_errors, Hp. simpl. by rewrite app_nil_r. }
  assert (Htot : totalRequests after = totalRequests before + 1).
  { rewrite At, Bt. apply total_requests_recordToolCall. }
  assert (Hsucc : successfulRequests after = successfulRequests before).
  { rewrite As, Bs. unfold w'. rewrite recordToolCall_toolCalls.
    destruct (recordToolCall_others w call) as (-> & -> & _).
    rewrite filter_app, filter_cons, filter_nil. simpl. rewrite Hp.
    rewrite decide_False by done. by rewrite app_nil_r. }
  destruct (getMetrics_rates w') as (Re & Rs & _).
  destruct (getMetrics_rates (exec (recordToolCall (with_status success call)) w))
    as (Se & Ss & _).
  fold after in Re, Rs. fold as_success in Se, Ss.
  assert (HerrS : errors (engine (exec (recordToolCall (with_status success call)) w))
                  = errors (engine w)).
  { rewrite recordToolCall_errors. simpl. by rewrite app_nil_r. }
  rewrite HerrS in Se, Ss.
  rewrite total_requests_recordToolCall in Se, Ss.
  rewrite Herr in Re, Rs. unfold w' in Re, Rs.
  rewrite total_requests_recordToolCall in Re, Rs.
  split_and!; try done.
  - lia.
  - by rewrite Aerr, Berr, Herr.
  - intros name. rewrite Atools, Btools, !error_count_log. unfold w'.
    rewrite recordToolCall_toolCalls, calls_on_snoc, fmap_app, count_status_app.
    simpl. destruct (decide (toolName call = name)); simpl; [|unfold count_status; simpl; lia].
    unfold count_status at 2. rewrite filter_cons, filter_nil. simpl. rewrite Hp.
    rewrite decide_False by done. simpl. lia.
  - rewrite Re, Bt. unfold errorRate_of. rewrite decide_True; [done|].
    unfold total_requests. lia.
  - by rewrite Re, Se.
  - by rewrite Rs, Ss.
Qed.

Lemma pending_accounting_witness :
  tc_status pending_call = pending
  ∧ totalRequests (eval getMetrics (exec (recordToolCall pending_call) one_failure_world))
    = totalRequests (eval getMetrics one_failure_world) + 1
  ∧ failedRequests (eval getMetrics (exec (recordToolCall pending_call) one_failure_world))
    = failedRequests (eval getMetrics one_failure_world) + 1
  ∧ errors (engine (exec (recordToolCall pending_call) one_failure_world))
    = errors (engine one_failure_world).
Proof.
  split; [reflexivity|].
  destruct (pending_accounting one_failure_world pending_call eq_refl)
    as (Ht & _ & Hf & He & _).
  by split_and!.
Defined.

(** C9, as stated, fails: after one failed call the error rate is 100; a
    pending call of the same tool then lowers it to 50, so the error rate is
    not unchanged. *)
Lemma pending_changes_errorRate :
  tc_status pending_call = pending
  ∧ errorRate (performance (eval getMetrics one_failure_world)) = Double.of_Z 100
  ∧ errorRate (performance
                 (eval getMetrics (exec (recordToolCall pending_call) one_failure_world)))
    = Double.of_Z 50
  ∧ Double.eqb
      (errorRate (performance
                    (eval getMetrics (exec (recordToolCall pending_call) one_failure_world))))
      (errorRate (performance (eval getMetrics one_failure_world)))
    = false.
Proof. vm_compute. split_and!; done. Qed.

(** ** The wrapper *)

Lemma logged_once_ingest (i : Ingestion) (w : World) :
  logged_once i (engine w) (engine (exec (ingest i) w)).
Proof.
  destruct i as [call|access|call]; simpl.
  - rewrite recordToolCall_toolCalls.
    destruct (recordToolCall_others w call) as (-> & -> & _). eauto.
  - rewrite recordResourceAccess_resourceAccesses.
    destruct (recordResourceAccess_others w access) as (-> & -> & _). eauto.
  - rewrite recordPromptCall_promptCalls.
    destruct (recordPromptCall_others w call) as (-> & -> & _). eauto.
Qed.

Lemma capability_of_instrument (kind : Kind) (server : MCPServer) (name : string) :
  capability_of kind (instrument server) name
  = (match kind with
     | Tool => wrapTool name
     | Resource => wrapResource name
     | Prompt => wrapPrompt name
     end) <$> capability_of kind server name.
Proof.
  unfold capability_of, instrument, wrap_entries.
  destruct kind; simpl.
  - destruct (tools server) as [record|]; simpl; [|done].
    rewrite map_lookup_imap. by destruct (record !! name).
  - destruct (resources server) as [record|]; simpl; [|done].
    rewrite map_lookup_imap. by destruct (record !! name).
  - destruct (prompts server) as [record|]; simpl; [|done].
    rewrite map_lookup_imap. by destruct (record !! name).
Qed.

(** A call of a wrapped capability, by the way the original call ends. *)

Lemma run_Date_now (w : World) : Date_now w = (now_of w, tick w).
Proof. reflexivity. Qed.

Lemma run_mret {A} (a : A) (w : World) : (mret a : M A) w = (a, w).
Proof. reflexivity. Qed.

(** Runs a wrapper up to the call of the original capability, and then up to
    the ingestion. *)
Ltac run_wrapper f inputs w :=
  unfold mbind, M_bind; rewrite (run_Date_now w);
  destruct (f inputs (tick w)) as [[v|e|] w1];
  rewrite ?run_Date_now;
  repeat match goal with
         | |- context [error_message ?x] => destruct (error_message x)
         end;
  unfold exec;
  repeat match goal with
         | |- context [recordToolCall ?c ?w'] => destruct (recordToolCall c w')
         | |- context [recordResourceAccess ?c ?w'] =>
             destruct (recordResourceAccess c w')
         | |- context [recordPromptCall ?c ?w'] => destruct (recordPromptCall c w')
         end;
  reflexivity.

Lemma wrapTool_run (name : string) (f : Capability) (inputs : list JSValue) (w : World) :
  wrapTool name f inputs w
  = match f inputs (tick w) with
    | (Fulfilled v, w1) =>
        (Fulfilled v,
         exec (recordToolCall
                 {| tc_given_id := None; tc_given_timestamp := None;
                    toolName := name; params := js_or (arg0 inputs) empty_object;
                    tc_duration := Some (now_of w1 - now_of w);
                    tc_status := success; tc_error := None; tc_result := Some v;
                    tc_metadata := None |})
              (tick w1))
    | (Rejected e, w1) =>
        match error_message e with
        | Returns message =>
            (Rejected e,
             exec (recordToolCall
                     {| tc_given_id := None; tc_given_timestamp := None;
                        toolName := name; params := js_or (arg0 inputs) empty_object;
                        tc_duration := Some (now_of w1 - now_of w);
                        tc_status := error; tc_error := Some message;
                        tc_result := None; tc_metadata := None |})
                  (tick w1))
        | Throws exception => (Rejected exception, tick w1)
        end
    | (Unsettled, w1) => (Unsettled, w1)
    end.
Proof. unfold wrapTool. run_wrapper f inputs w. Qed.

Lemma wrapResource_run (name : string) (f : Capability) (inputs : list JSValue)
  (w : World) :
  wrapResource name f inputs w
  = match f inputs (tick w) with
    | (Fulfilled v, w1) =>
        (Fulfilled v,
         exec (recordResourceAccess
                 {| ra_given_id := None; ra_given_timestamp := None;
                    resourceUri := name; operation := read;
                    ra_duration := Some (now_of w1 - now_of w);
                    ra_status := success; ra_error := None;
                    bytesTransferred := Some (string_length_or_0 v) |})
              (tick w1))
    | (Rejected e, w1) =>
        match error_message e with
        | Returns message =>
            (Rejected e,
             exec (recordResourceAccess
                     {| ra_given_id := None; ra_given_timestamp := None;
                        resourceUri := name; operation := read;
                        ra_duration := Some (now_of w1 - now_of w);
                        ra_status := error; ra_error := Some message;
                        bytesTransferred := None |})
                  (tick w1))
        | Throws exception => (Rejected exception, tick w1)
        end
    | (Unsettled, w1) => (Unsettled, w1)
    end.
Proof. unfold wrapResource. run_wrapper f inputs w. Qed.

Lemma wrapPrompt_run (name : string) (f : Capability) (inputs : list JSValue)
  (w : World) :
  wrapPrompt name f inputs w
  = match f inputs (tick w) with
    | (Fulfilled v, w1) =>
        (Fulfilled v,
         exec (recordPromptCall
                 {| pc_given_id := None; pc_given_timestamp := None;
                    promptName := name; args := js_or (arg0 inputs) empty_object;
                    pc_duration := Some (now_of w1 - now_of w);
                    pc_status := success; pc_error := None;
                    tokensGenerated := Some (split_length_or_0 v) |})
              (tick w1))
    | (Rejected e, w1) =>
        match error_message e with
        | Returns message =>
            (Rejected e,
             exec (recordPromptCall
                     {| pc_given_id := None; pc_given_timestamp := None;
                        promptName := name; args := js_or (arg0 inputs) empty_object;
                        pc_duration := Some (now_of w1 - now_of w);
                        pc_status := error; pc_error := Some message;
                        tokensGenerated := None |})
                  (tick w1))
        | Throws exception => (Rejected exception, tick w1)
        end
    | (Unsettled, w1) => (Unsettled, w1)
    end.
Proof. unfold wrapPrompt. run_wrapper f inputs w. Qed.

Lemma ingest_tool (call : ToolCallInput) : ingest (IngestTool call) = recordToolCall call.
Proof. reflexivity. Qed.

Lemma ingest_resource (access : ResourceAccessInput) :
  ingest (IngestResource access) = recordResourceAccess access.
Proof. reflexivity. Qed.

Lemma ingest_prompt (call : PromptCallInput) :
  ingest (IngestPrompt call) = recordPromptCall call.
Proof. reflexivity. Qed.

(** Reading the message of a thrown value throws only for an object, and
    what it throws is a [TypeError]. *)
Lemma error_message_throws (e x : JSValue) :
  error_message e = Throws x →
  (∃ props, e = JSObject props ∧ "toString" ∈ props.*1)
  ∧ x = JSTypeError cannot_convert.
Proof.
  destruct e as [| |[]| | |props| |]; simpl; try discriminate.
  case_decide; [|discriminate]. intros [= <-]. eauto.
Qed.

(** Let [f] be the capability that a server offers under [name].  The
    instrumented server offers a capability [g] under the same name.  When
    [f] returns [v], [g] returns [v] after one ingestion with status
    ['success'].  When [f] throws [e] and the message of [e] can be read,
    [g] throws the same [e] after one ingestion with status ['error'] and
    that message; when reading the message throws, [g] throws that
    exception and the collector is not called.  The ingestion is made after
    [f] has settled and before [g] settles, with the capability's name, and
    the event is stored when [g] settles. *)
Lemma instrumented_call
  (kind : Kind) (server : MCPServer) (name : string) (f : Capability)
  (inputs : list JSValue) (w : World) :
  capability_of kind server name = Some f →
  ∃ g : Capability,
    capability_of kind (instrument server) name = Some g
    ∧ let settled := eval (f inputs) (tick w) in
      let w1 := exec (f inputs) (tick w) in
      match settled with
      | Fulfilled v =>
          ∃ (ev : Ingestion) (w2 : World),
            g inputs w = (Fulfilled v, w2)
            ∧ w2 = exec (ingest ev) (tick w1)
            ∧ ingestion_kind ev = kind
            ∧ ingestion_name ev = name
            ∧ ingestion_status ev = success
            ∧ logged_once ev (engine w1) (engine w2)
      | Rejected e =>
          match error_message e with
          | Returns message =>
              ∃ (ev : Ingestion) (w2 : World),
                g inputs w = (Rejected e, w2)
                ∧ w2 = exec (ingest ev) (tick w1)
                ∧ ingestion_kind ev = kind
                ∧ ingestion_name ev = name
                ∧ ingestion_status ev = error
                ∧ ingestion_error ev = Some message
                ∧ logged_once ev (engine w1) (engine w2)
          | Throws exception => g inputs w = (Rejected exception, tick w1)
          end
      | Unsettled => g inputs w = (Unsettled, w1)
      end.
Proof.
  intros Hf. rewrite capability_of_instrument, Hf. simpl.
  eexists; split; [reflexivity|]. cbv zeta.
  assert (E : f inputs (tick w) = (eval (f inputs) (tick w), exec (f inputs) (tick w)))
    by apply surjective_pairing.
  revert E. generalize (eval (f inputs) (tick w)) (exec (f inputs) (tick w)).
  intros settled w1 E.
  destruct kind; rewrite ?wrapTool_run, ?wrapResource_run, ?wrapPrompt_run, E;
    destruct settled as [v|e|]; try reflexivity;
    try (destruct (error_message e) as [message|exception]; [|reflexivity]).
  all: match goal with
       | |- context [exec (recordToolCall ?c) (tick ?w')] =>
           pose proof (logged_once_ingest (IngestTool c) (tick w')) as Hlog;
           exists (IngestTool c), (exec (ingest (IngestTool c)) (tick w'))
       | |- context [exec (recordResourceAccess ?c) (tick ?w')] =>
           pose proof (logged_once_ingest (IngestResource c) (tick w')) as Hlog;
           exists (IngestResource c), (exec (ingest (IngestResource c)) (tick w'))
       | |- context [exec (recordPromptCall ?c) (tick ?w')] =>
           pose proof (logged_once_ingest (IngestPrompt c) (tick w')) as Hlog;
           exists (IngestPrompt c), (exec (ingest (IngestPrompt c)) (tick w'))
       end.
  all: rewrite engine_tick in Hlog.
  all: rewrite ?ingest_tool, ?ingest_resource, ?ingest_prompt in Hlog |- *.
  all: split_and!; [reflexivity..|exact Hlog].
Qed.

(** C1, where the code departs from it.  Let [f] be the capability that a
    server offers under [name], and let a call of [f] throw a value [e]
    whose message cannot be read: [e] is not an [Error] and [String(e)]
    throws [x].  Then the capability that the instrumented server offers
    under [name] throws [x], which is not [e], and the collector is not
    called: it is left as [f] left it, and nothing is emitted. *)
Theorem wrapper_replaces_the_error
  (kind : Kind) (server : MCPServer) (name : string) (f : Capability)
  (inputs : list JSValue) (w w1 : World) (e x : JSValue) :
  capability_of kind server name = Some f →
  f inputs (tick w) = (Rejected e, w1) →
  error_message e = Throws x →
  ∃ g : Capability,
    capability_of kind (instrument server) name = Some g
    ∧ eval (g inputs) w = Rejected x
    ∧ x ≠ e
    ∧ engine (exec (g inputs) w) = engine w1
    ∧ emitted (exec (g inputs) w) = emitted w1.
Proof.
  intros Hf E Hx. rewrite capability_of_instrument, Hf. simpl.
  eexists; split; [reflexivity|].
  destruct (error_message_throws e x Hx) as ((props & -> & _) & ->).
  unfold eval, exec.
  destruct kind; rewrite ?wrapTool_run, ?wrapResource_run, ?wrapPrompt_run, E, Hx;
    by split_and!.
Qed.

Lemma wrapper_replaces_the_error_witness :
  capability_of Tool
    (test_server "t" (throwing (JSObject [("toString", JSNumber 1)]))) "t"
  = Some (throwing (JSObject [("toString", JSNumber 1)]))
  ∧ throwing (JSObject [("toString", JSNumber 1)]) [] (tick example_world)
    = (Rejected (JSObject [("toString", JSNumber 1)]), tick example_world)
  ∧ error_message (JSObject [("toString", JSNumber 1)])
    = Throws (JSTypeError cannot_convert)
  ∧ ∃ g : Capability,
      capability_of Tool
        (instrument (test_server "t" (throwing (JSObject [("toString", JSNumber 1)]))))
        "t" = Some g
      ∧ eval (g []) example_world = Rejected (JSTypeError cannot_convert)
      ∧ toolCalls (engine (exec (g []) example_world)) = []
      ∧ errors (engine (exec (g []) example_world)) = [].
Proof.
  assert (H1 : capability_of Tool
                 (test_server "t" (throwing (JSObject [("toString", JSNumber 1)]))) "t"
               = Some (throwing (JSObject [("toString", JSNumber 1)])))
    by reflexivity.
  assert (H2 : throwing (JSObject [("toString", JSNumber 1)]) [] (tick example_world)
               = (Rejected (JSObject [("toString", JSNumber 1)]), tick example_world))
    by reflexivity.
  assert (H3 : error_message (JSObject [("toString", JSNumber 1)])
               = Throws (JSTypeError cannot_convert)) by reflexivity.
  split_and!; [exact H1|exact H2|exact H3|].
  destruct (wrapper_replaces_the_error Tool _ "t" _ [] example_world _ _ _ H1 H2 H3)
    as (g & Hg & Hv & _ & He & _).
  exists g. split; [exact Hg|]. split; [exact Hv|]. rewrite He. by split.
Defined.

(** The echoing tool, instrumented: the call returns its argument and one
    event is stored. *)
Example echo_is_instrumented :
  ∃ g : Capability,
    capability_of Tool (instrument echo_server) "echo" = Some g
    ∧ eval (g [JSString "hi"]) example_world = Fulfilled (JSString "hi")
    ∧ length (toolCalls (engine (exec (g [JSString "hi"]) example_world))) = 1%nat.
Proof.
  destruct (instrumented_call Tool echo_server "echo" echo [JSString "hi"]
              example_world eq_refl) as (g & Hg & Hrun).
  exists g. split; [exact Hg|].
  simpl in Hrun. destruct Hrun as (ev & w2 & Hcall & _ & Hkind & _ & _ & Hlog).
  unfold eval, exec. rewrite Hcall. cbn [fst snd]. split; [reflexivity|].
  destruct ev as [call| |]; try discriminate Hkind.
  destruct Hlog as ((r & -> & _) & _). reflexivity.
Qed.

(** ** Derived metrics of resources and prompts *)

(** A wrapped resource reports the length of a string result as the bytes
    transferred, and 0 for any other result. *)
Lemma wrapResource_bytes (name : string) (f : Capability) (inputs : list JSValue)
  (w w1 : World) (v : JSValue) :
  f inputs (tick w) = (Fulfilled v, w1) →
  last_bytes (exec (wrapResource name f inputs) w)
  = Some (match v with JSString s => Z.of_nat (String.length s) | _ => 0 end).
Proof.
  intros E. unfold exec at 1. rewrite wrapResource_run, E. simpl snd.
  unfold last_bytes. rewrite recordResourceAccess_resourceAccesses, last_snoc.
  by destruct v.
Qed.

(** A wrapped prompt reports the number of pieces of [split(/\s+/)] of a
    string result as the tokens generated, and 0 for any other result. *)
Lemma wrapPrompt_tokens (name : string) (f : Capability) (inputs : list JSValue)
  (w w1 : World) (v : JSValue) :
  f inputs (tick w) = (Fulfilled v, w1) →
  last_tokens (exec (wrapPrompt name f inputs) w)
  = Some (match v with JSString s => Z.of_nat (length (split_ws s)) | _ => 0 end).
Proof.
  intros E. unfold exec at 1. rewrite wrapPrompt_run, E. simpl snd.
  unfold last_tokens. rewrite recordPromptCall_promptCalls, last_snoc.
  by destruct v.
Qed.

(** The pieces of [split(/\s+/)] against the words: after a separator, and
    inside a piece. *)
Lemma split_ws_go_length (s : list ascii) :
  (∀ cur, length (split_ws_go cur true s)
          = (count_words false s + Nat.b2n (ends_blank true s))%nat)
  ∧ (∀ cur, length (split_ws_go cur false s)
            = (1 + count_words true s + Nat.b2n (ends_blank false s))%nat).
Proof.
  induction s as [|c s [IHt IHf]]; [by split|].
  split; intros cur; simpl; destruct (is_space c); simpl;
    rewrite ?IHt, ?IHf; lia.
Qed.

(** The number of pieces is the number of words, plus one when the string is
    empty or begins with whitespace, plus one when it ends with whitespace. *)
Lemma split_ws_length (s : string) :
  length (split_ws s)
  = (word_count s + Nat.b2n (starts_blank (list_ascii_of_string s))
     + Nat.b2n (ends_blank false (list_ascii_of_string s)))%nat.
Proof.
  unfold split_ws, word_count. rewrite length_fmap.
  destruct (split_ws_go_length (list_ascii_of_string s)) as [_ ->].
  destruct (list_ascii_of_string s) as [|c l]; simpl; [done|].
  destruct (is_space c); simpl; lia.
Qed.

(** C5, where the code departs from it.  A wrapped prompt whose original
    returns the empty string reports 1 token although the string has no word,
    and for ["hello world "] it reports 3 tokens although there are 2 words:
    [split(/\s+/)] also yields the empty pieces before a leading and after a
    trailing run of whitespace. *)
Theorem prompt_tokens_not_word_count :
  last_tokens (exec (wrapPrompt "greet" (returning (JSString "")) []) example_world)
  = Some 1
  ∧ word_count "" = 0%nat
  ∧ last_tokens
      (exec (wrapPrompt "greet" (returning (JSString "hello world ")) []) example_world)
    = Some 3
  ∧ word_count "hello world " = 2%nat.
Proof. vm_compute. done. Qed.

(** On a string that is not empty and neither begins nor ends with whitespace
    the two counts agree. *)
Lemma split_ws_length_trimmed (s : string) :
  starts_blank (list_ascii_of_string s) = false →
  ends_blank false (list_ascii_of_string s) = false →
  length (split_ws s) = word_count s.
Proof. intros H1 H2. rewrite split_ws_length, H1, H2. simpl. lia. Qed.

(** ** The repository's tests, replayed on the model *)

Example can_record_resource_access :
  totalRequests
    (eval getMetrics
       (exec (recordResourceAccess
                {| ra_given_id := None; ra_given_timestamp := None;
                   resourceUri := "file:///test.txt"; operation := read;
                   ra_duration := Some 50; ra_status := success; ra_error := None;
                   bytesTransferred := Some 1024 |})
             example_world)) = 1
  ∧ totalBytesTransferred
      <$> sm_resources
            (eval getMetrics
               (exec (recordResourceAccess
                        {| ra_given_id := None; ra_given_timestamp := None;
                   resourceUri := "file:///test.txt"; operation := read;
                           ra_duration := Some 50; ra_status := success;
                           ra_error := None; bytesTransferred := Some 1024 |})
                     example_world)) = [1024].
Proof. by vm_compute. Qed.

Example can_record_prompt_call :
  totalTokens
    <$> sm_prompts
          (eval getMetrics
             (exec (recordPromptCall
                      {| pc_given_id := None; pc_given_timestamp := None;
                         promptName := "test-prompt";
                         args := JSObject [("input", JSString "hello")];
                         pc_duration := Some 200; pc_status := success;
                         pc_error := None; tokensGenerated := Some 50 |})
                   example_world)) = [50].
Proof. by vm_compute. Qed.

Example can_track_errors :
  ((λ e : ErrorLog, el_type e) <$> sm_errors (eval getMetrics one_failure_world))
  = [tool]
  ∧ failedRequests (eval getMetrics one_failure_world) = 1.
Proof. by vm_compute. Qed.

Example interceptor_wraps_tools :
  totalRequests
    (eval getMetrics
       (exec (call_tool (instrument (test_server "test-tool" test_tool)) "test-tool"
                        [JSObject [("input", JSString "test")]])
             example_world)) = 1
  ∧ tm_name
      <$> sm_tools
            (eval getMetrics
               (exec (call_tool (instrument (test_server "test-tool" test_tool))
                                "test-tool" [JSObject [("input", JSString "test")]])
                     example_world)) = ["test-tool"].
Proof. by vm_compute. Qed.

Example interceptor_captures_errors :
  (λ e : ErrorLog, el_error e)
    <$> sm_errors
          (eval getMetrics
             (exec (call_tool
                      (instrument (test_server "failing-tool" (failing "Test error")))
                      "failing-tool" [empty_object])
                   example_world)) = ["Test error"].
Proof. by vm_compute. Qed.

Example tools_are_tracked_separately :
  tm_callCount
    <$> sm_tools
          (eval getMetrics
             (exec (tool_calls_in_turn
                      [a_call "tool-a" success (Some 100) None;
                       a_call "tool-b" success (Some 200) None;
                       a_call "tool-c" success (Some 300) None])
                   example_world)) = [1; 1; 1].
Proof. by vm_compute. Qed.

Example reset_clears_the_logs :
  totalRequests (eval getMetrics (exec reset read_file_world)) = 0
  ∧ sm_tools (eval getMetrics (exec reset read_file_world)) = []
  ∧ sm_errors (eval getMetrics (exec reset read_file_world)) = []
  ∧ uptime (eval getMetrics (exec reset read_file_world)) = 1.
Proof. by vm_compute. Qed.

(** * Further properties of the collector *)

(** ** What an ingestion does to the side logs *)

Section IngestionLogs.
Variable w : World.

Lemma recordResourceAccess_latencies (access : ResourceAccessInput) :
  latencies (engine (exec (recordResourceAccess access) w))
  = latencies (engine w) ++ option_list (ra_duration access).
Proof. by_ingestion. Qed.

Lemma recordResourceAccess_requestTimestamps (access : ResourceAccessInput) :
  requestTimestamps (engine (exec (recordResourceAccess access) w))
  = requestTimestamps (engine w) ++ [now_of (tick w)].
Proof. by_ingestion. Qed.

Lemma recordPromptCall_latencies (call : PromptCallInput) :
  latencies (engine (exec (recordPromptCall call) w))
  = latencies (engine w) ++ option_list (pc_duration call).
Proof. by_ingestion. Qed.

Lemma recordPromptCall_requestTimestamps (call : PromptCallInput) :
  requestTimestamps (engine (exec (recordPromptCall call) w))
  = requestTimestamps (engine w) ++ [now_of (tick w)].
Proof. by_ingestion. Qed.

Lemma ingest_latencies (i : Ingestion) :
  latencies (engine (exec (ingest i) w))
  = latencies (engine w) ++ option_list (ingestion_duration i).
Proof.
  destruct i; simpl ingest.
  - apply recordToolCall_latencies.
  - apply recordResourceAccess_latencies.
  - apply recordPromptCall_latencies.
Qed.

Lemma ingest_requestTimestamps (i : Ingestion) :
  requestTimestamps (engine (exec (ingest i) w))
  = requestTimestamps (engine w) ++ [now_of (tick w)].
Proof.
  destruct i; simpl ingest.
  - apply recordToolCall_requestTimestamps.
  - apply recordResourceAccess_requestTimestamps.
  - apply recordPromptCall_requestTimestamps.
Qed.

Lemma ingest_errors_length (i : Ingestion) :
  Z.of_nat (length (errors (engine (exec (ingest i) w))))
  = Z.of_nat (length (errors (engine w)))
    + (if decide (ingestion_status i = error) then 1 else 0).
Proof.
  destruct i; simpl ingest; simpl ingestion_status.
  - rewrite recordToolCall_errors, length_app. case_decide; simpl; lia.
  - rewrite recordResourceAccess_errors, length_app. case_decide; simpl; lia.
  - rewrite recordPromptCall_errors, length_app. case_decide; simpl; lia.
Qed.

Lemma ingest_frame (i : Ingestion) :
  startTime (engine (exec (ingest i) w)) = startTime (engine w)
  ∧ config (engine (exec (ingest i) w)) = config (engine w).
Proof.
  destruct i; simpl ingest.
  - by destruct (recordToolCall_others w call) as (_ & _ & -> & ->).
  - by destruct (recordResourceAccess_others w access) as (_ & _ & -> & ->).
  - by destruct (recordPromptCall_others w call) as (_ & _ & -> & ->).
Qed.
End IngestionLogs.

(** X1. Every ingestion, of any kind and with any status, stores one more
    event, appends the time of its second clock reading to the timestamp log
    and appends its duration to the duration log exactly when a duration was
    supplied; the start time and the configuration stay. *)
Theorem ingestion_side_logs (i : Ingestion) (w : World) :
  let c := engine w in
  let c' := engine (exec (ingest i) w) in
  total_requests c' = total_requests c + 1
  ∧ requestTimestamps c' = requestTimestamps c ++ [now_of (tick w)]
  ∧ latencies c'
    = match ingestion_duration i with
      | Some d => latencies c ++ [d]
      | None => latencies c
      end
  ∧ startTime c' = startTime c
  ∧ config c' = config c.
Proof.
  cbv zeta. split_and!.
  - pose proof (logged_once_ingest i w) as Hl. unfold total_requests.
    destruct i; unfold logged_once in Hl;
      rewrite ?ingest_tool, ?ingest_resource, ?ingest_prompt in Hl |- *.
    + destruct Hl as ((r & -> & _) & -> & ->). rewrite length_app. simpl. lia.
    + destruct Hl as (-> & (r & -> & _) & ->). rewrite length_app. simpl. lia.
    + destruct Hl as (-> & -> & (r & -> & _)). rewrite length_app. simpl. lia.
  - apply ingest_requestTimestamps.
  - rewrite ingest_latencies. destruct (ingestion_duration i); simpl; [done|].
    by rewrite app_nil_r.
  - apply ingest_frame.
  - apply ingest_frame.
Qed.

(** ** Emitted events *)

(** X2. An ingestion emits the event it has just stored, and before it the
    error record it has just stored when the status is ['error']: one
    ['mcp_error'] emission followed by one emission of the kind, otherwise a
    single emission.  [getMetrics], [cleanup] and [reset] emit nothing. *)
Theorem emissions (w : World) :
  (∀ i : Ingestion,
     let w' := exec (ingest i) w in
     ∃ ev, emitted_event i (engine w') = Some ev
           ∧ if decide (ingestion_status i = error)
             then ∃ e, last (errors (engine w')) = Some e
                       ∧ emitted w' = emitted w ++ [mcp_error e; ev]
             else emitted w' = emitted w ++ [ev])
  ∧ emitted (exec getMetrics w) = emitted w
  ∧ emitted (exec cleanup w) = emitted w
  ∧ emitted (exec reset w) = emitted w.
Proof.
  split; [|by repeat split].
  intros [call|access|call]; cbv zeta.
  - destruct call as [? ? ? ? [?|] [] ? ? ?]; simpl; unfold push;
      rewrite ?last_snoc; simpl; eexists; (split; [reflexivity|]);
      rewrite <- ?app_assoc; eauto.
  - destruct access as [? ? ? ? [?|] [] ? ?]; simpl; unfold push;
      rewrite ?last_snoc; simpl; eexists; (split; [reflexivity|]);
      rewrite <- ?app_assoc; eauto.
  - destruct call as [? ? ? ? [?|] [] ? ?]; simpl; unfold push;
      rewrite ?last_snoc; simpl; eexists; (split; [reflexivity|]);
      rewrite <- ?app_assoc; eauto.
Qed.

(** ** Reset *)

(** X3. After [reset] a snapshot is that of an empty collector: every count is
    0, every list is empty, the averages and the percentiles are 0, the error
    rate is 0 and the success rate 100; the uptime restarts at the time of the
    reset and the server name is kept. *)
Theorem reset_snapshot (w : World) :
  let snapshot := eval getMetrics (exec reset w) in
  totalRequests snapshot = 0
  ∧ successfulRequests snapshot = 0
  ∧ failedRequests snapshot = 0
  ∧ sm_tools snapshot = [] ∧ sm_resources snapshot = [] ∧ sm_prompts snapshot = []
  ∧ sm_errors snapshot = []
  ∧ avgResponseTime snapshot = 0%Q
  ∧ requestsPerMinute snapshot = 0
  ∧ performance snapshot
    = {| avgLatency := 0; p50Latency := Some 0; p95Latency := Some 0;
         p99Latency := Some 0; requestsPerSecond := 0;
         errorRate := Double.of_Z 0; successRate := Double.of_Z 100 |}
  ∧ uptime snapshot = now_of (tick w) - now_of w
  ∧ sm_serverName snapshot = serverName (config (engine w)).
Proof. cbv zeta. by split_and!. Qed.

(** ** The side logs agree with the event logs until a sweep *)

Lemma exec_run_ops_cons (o : Op) (ops : list Op) (w : World) :
  exec (run_ops (o :: ops)) w = exec (run_ops ops) (exec (run_op o) w).
Proof. simpl run_ops. by rewrite exec_bind. Qed.

Lemma events_with_status_ingest (s : Status) (i : Ingestion) (w : World) :
  events_with_status s (engine (exec (ingest i) w))
  = events_with_status s (engine w)
    + (if decide (ingestion_status i = s) then 1 else 0).
Proof.
  pose proof (logged_once_ingest i w) as Hl. unfold events_with_status.
  destruct i; unfold logged_once in Hl; simpl ingestion_status.
  - destruct Hl as ((r & -> & <-) & -> & ->).
    rewrite filter_app, length_app, filter_cons, filter_nil.
    case_decide; simpl; lia.
  - destruct Hl as (-> & (r & -> & <-) & ->).
    rewrite filter_app, length_app, filter_cons, filter_nil.
    case_decide; simpl; lia.
  - destruct Hl as (-> & -> & (r & -> & <-)).
    rewrite filter_app, length_app, filter_cons, filter_nil.
    case_decide; simpl; lia.
Qed.

Lemma events_with_duration_ingest (i : Ingestion) (w : World) :
  events_with_duration (engine (exec (ingest i) w))
  = events_with_duration (engine w)
    + Z.of_nat (length (option_list (ingestion_duration i))).
Proof.
  pose proof (logged_once_ingest i w) as Hl. unfold events_with_duration.
  destruct i; unfold logged_once in Hl; simpl ingestion_duration.
  - destruct Hl as ((r & -> & <-) & -> & ->).
    rewrite filter_app, length_app, filter_cons, filter_nil.
    destruct (tc_duration r); case_decide; simpl; try done; lia.
  - destruct Hl as (-> & (r & -> & <-) & ->).
    rewrite filter_app, length_app, filter_cons, filter_nil.
    destruct (ra_duration r); case_decide; simpl; try done; lia.
  - destruct Hl as (-> & -> & (r & -> & <-)).
    rewrite filter_app, length_app, filter_cons, filter_nil.
    destruct (pc_duration r); case_decide; simpl; try done; lia.
Qed.

Lemma total_requests_ingest (i : Ingestion) (w : World) :
  total_requests (engine (exec (ingest i) w)) = total_requests (engine w) + 1.
Proof.
  pose proof (logged_once_ingest i w) as Hl. unfold total_requests.
  destruct i; unfold logged_once in Hl.
  - destruct Hl as ((r & -> & _) & -> & ->). rewrite length_app. simpl. lia.
  - destruct Hl as (-> & (r & -> & _) & ->). rewrite length_app. simpl. lia.
  - destruct Hl as (-> & -> & (r & -> & _)). rewrite length_app. simpl. lia.
Qed.

Lemma logs_agree_ingest (i : Ingestion) (w : World) :
  logs_agree (engine w) → logs_agree (engine (exec (ingest i) w)).
Proof.
  intros (Ht & He & Hd). split_and!.
  - rewrite ingest_requestTimestamps, length_app, total_requests_ingest. simpl. lia.
  - rewrite ingest_errors_length, events_with_status_ingest. lia.
  - rewrite ingest_latencies, length_app, events_with_duration_ingest. lia.
Qed.

Lemma logs_agree_run_op (o : Op) (w : World) :
  ¬ is_sweep o → logs_agree (engine w) → logs_agree (engine (exec (run_op o) w)).
Proof.
  destruct o as [i| | |]; simpl is_sweep; intros Hs Hw; try done.
  by apply logs_agree_ingest.
Qed.

Lemma logs_agree_run_ops (ops : list Op) (w : World) :
  Forall (λ o, ¬ is_sweep o) ops →
  logs_agree (engine w) → logs_agree (engine (exec (run_ops ops) w)).
Proof.
  intros Hops. revert w. induction Hops as [|o ops Ho _ IH]; intros w Hw; [done|].
  rewrite exec_run_ops_cons. by apply IH, logs_agree_run_op.
Qed.

Lemma events_with_status_le_total (s : Status) (c : Collector) :
  0 ≤ events_with_status s c ≤ total_requests c.
Proof.
  unfold events_with_status, total_requests.
  pose proof (length_filter (λ x : MCPToolCall, tc_status x = s) (toolCalls c)).
  pose proof (length_filter (λ r : MCPResourceAccess, ra_status r = s)
                (resourceAccesses c)).
  pose proof (length_filter (λ p : MCPPromptCall, pc_status p = s) (promptCalls c)).
  lia.
Qed.

Lemma events_with_duration_le_total (c : Collector) :
  events_with_duration c ≤ total_requests c.
Proof.
  unfold events_with_duration, total_requests.
  pose proof (length_filter (λ x : MCPToolCall, tc_duration x ≠ None) (toolCalls c)).
  pose proof (length_filter (λ r : MCPResourceAccess, ra_duration r ≠ None)
                (resourceAccesses c)).
  pose proof (length_filter (λ p : MCPPromptCall, pc_duration p ≠ None) (promptCalls c)).
  lia.
Qed.

(** X4. As long as no sweep has run, a collector that started empty keeps one
    timestamp per stored event, one error record per stored event with status
    ['error'] and one duration per stored event that carries one, whatever
    ingestions, snapshots and resets were made; its error log then holds at
    most as many records as there are stored events, so that the quotient
    errors ÷ total, from which the error rate is computed, is at most 1, and
    its duration log at most as many entries as there are stored events. *)
Theorem logs_stay_in_step (cfg : MonitorConfig) (h : Host) (ops : list Op) :
  Forall (λ o, ¬ is_sweep o) ops →
  let w := exec (run_ops ops) (new_TelemetryCollector cfg h) in
  logs_agree (engine w)
  ∧ 0 ≤ Z.of_nat (length (errors (engine w))) ≤ total_requests (engine w)
  ∧ Z.of_nat (length (latencies (engine w))) ≤ total_requests (engine w).
Proof.
  intros Hops w.
  assert (Hw : logs_agree (engine w)).
  { apply logs_agree_run_ops; [done|]. by repeat split. }
  split; [done|]. destruct Hw as (Ht & He & Hd).
  pose proof (events_with_status_le_total error (engine w)) as Hle.
  rewrite <- He in Hle. split; [done|].
  rewrite Hd. apply events_with_duration_le_total.
Qed.

Lemma logs_stay_in_step_witness :
  Forall (λ o, ¬ is_sweep o) example_ops
  ∧ logs_agree (engine example_ops_world)
  ∧ Z.of_nat (length (errors (engine example_ops_world))) = 1
  ∧ total_requests (engine example_ops_world) = 2.
Proof.
  assert (H : Forall (λ o, ¬ is_sweep o) example_ops)
    by (repeat constructor; simpl; tauto).
  split; [exact H|].
  destruct (logs_stay_in_step example_config example_host example_ops H)
    as (Ha & _).
  by split_and!.
Defined.

(** ** Grouping by name: the first pass of the three aggregations *)

Lemma tool_visit_group : tool_visit = group_visit tool_key tool_init tool_update.
Proof. reflexivity. Qed.

Lemma resource_visit_group :
  resource_visit = group_visit resource_key resource_init resource_update.
Proof. reflexivity. Qed.

Lemma prompt_visit_group :
  prompt_visit = group_visit prompt_key prompt_init prompt_update.
Proof. reflexivity. Qed.

Lemma map_set_keys {V} (m : list (string * V)) (k : string) (v : V) :
  (map_set m k v).*1 = add_name (m.*1) k.
Proof.
  unfold add_name. induction m as [|[k0 v0] m IH]; [done|].
  simpl map_set. destruct (decide (k = k0)) as [->|Hne]; rewrite !fmap_cons; cbn [fst].
  - rewrite decide_True; [done|left].
  - rewrite IH. destruct (decide (k ∈ m.*1)) as [Hin|Hin].
    + rewrite decide_True; [done|by right].
    + rewrite decide_False; [done|]. by intros [?|?]%elem_of_cons.
Qed.

Lemma add_name_NoDup (seen : list string) (name : string) :
  NoDup seen → NoDup (add_name seen name).
Proof.
  intros Hs. unfold add_name. case_decide; [done|].
  apply NoDup_app. split_and!; [done| |apply NoDup_singleton].
  intros x Hx ->%list_elem_of_singleton. done.
Qed.

Lemma elem_of_add_name (seen : list string) (name x : string) :
  x ∈ add_name seen name ↔ x ∈ seen ∨ x = name.
Proof.
  unfold add_name. case_decide.
  - split; [by left|]. intros [?| ->]; done.
  - rewrite elem_of_app, list_elem_of_singleton. done.
Qed.

Lemma fold_add_name_facts (names seen : list string) :
  NoDup seen →
  NoDup (fold_left add_name names seen)
  ∧ ∀ x, x ∈ fold_left add_name names seen ↔ x ∈ seen ∨ x ∈ names.
Proof.
  revert seen. induction names as [|n names IH]; intros seen Hs; simpl.
  - split; [done|]. intros x. rewrite elem_of_nil. tauto.
  - destruct (IH (add_name seen n) (add_name_NoDup _ _ Hs)) as [Hnd Hin].
    split; [done|]. intros x. rewrite Hin, elem_of_add_name, elem_of_cons. tauto.
Qed.

Lemma first_seen_NoDup (names : list string) : NoDup (first_seen names).
Proof. apply fold_add_name_facts, NoDup_nil_2. Qed.

Lemma elem_of_first_seen (names : list string) (x : string) :
  x ∈ first_seen names ↔ x ∈ names.
Proof.
  unfold first_seen.
  destruct (fold_add_name_facts names [] (NoDup_nil_2)) as [_ H].
  rewrite H, elem_of_nil. tauto.
Qed.

Section GroupBy.
Context {E V : Type} (key : E → string) (init : E → V) (upd : V → E → V).

Lemma group_keys_from (log : list E) (m : list (string * V)) :
  (fold_left (group_visit key init upd) log m).*1
  = fold_left add_name (key <$> log) (m.*1).
Proof.
  revert m. induction log as [|x log IH]; intros m; [done|].
  simpl. rewrite IH. unfold group_visit. by rewrite map_set_keys.
Qed.

Lemma group_keys (log : list E) :
  (fold_left (group_visit key init upd) log []).*1 = first_seen (key <$> log).
Proof. apply group_keys_from. Qed.

Section Field.
Context {T : Type} (μ : V → T) (e0 : T) (step : T → E → T).
Hypothesis μ_init : ∀ x, μ (init x) = e0.
Hypothesis μ_upd : ∀ v x, μ (upd v x) = step (μ v) x.

Lemma group_field (log : list E) (k : string) :
  μ <$> map_get (fold_left (group_visit key init upd) log []) k
  = match filter (λ x, key x = k) log with
    | [] => None
    | xs => Some (fold_left step xs e0)
    end.
Proof.
  induction log as [|x log IH] using rev_ind; [done|].
  rewrite fold_left_app, filter_app. simpl fold_left. unfold group_visit at 1.
  rewrite map_get_set, filter_cons, filter_nil.
  destruct (decide (k = key x)) as [->|Hne].
  - rewrite decide_True by done. simpl. rewrite μ_upd.
    destruct (filter (λ x0, key x0 = key x) log) as [|y ys] eqn:Ef.
    + destruct (map_get _ (key x)) as [v|]; [done|]. simpl. by rewrite μ_init.
    + destruct (map_get _ (key x)) as [v|]; [|done]. simpl in *.
      injection IH as ->. by rewrite fold_left_app.
  - rewrite decide_False by done. by rewrite app_nil_r.
Qed.
End Field.

Section Named.
Context (name : V → string).
Hypothesis name_init : ∀ x, name (init x) = key x.
Hypothesis name_upd : ∀ v x, name (upd v x) = name v.

Lemma group_named (log : list E) :
  Forall (λ entry, name entry.2 = entry.1)
    (fold_left (group_visit key init upd) log []).
Proof.
  induction log as [|x log IH] using rev_ind; [constructor|].
  rewrite fold_left_app. simpl. unfold group_visit at 1.
  apply map_set_Forall; [done|]. simpl. rewrite name_upd.
  destruct (map_get _ (key x)) as [v|] eqn:Ev; simpl; [|done].
  apply map_get_elem in Ev. rewrite Forall_forall in IH. apply (IH _ Ev).
Qed.
End Named.

Section Total.
Context (μ : V → Z) (δ : E → Z).
Hypothesis μ_init : ∀ x, μ (init x) = 0.
Hypothesis μ_upd : ∀ v x, μ (upd v x) = μ v + δ x.

Lemma sumZ_map_set (m : list (string * V)) (k : string) (v : V) :
  sumZ (λ e, μ e.2) (map_set m k v)
  = sumZ (λ e, μ e.2) m - default 0 (μ <$> map_get m k) + μ v.
Proof.
  induction m as [|[k0 v0] m IH]; simpl; [lia|].
  destruct (decide (k = k0)); simpl; [lia|]. rewrite IH. lia.
Qed.

Lemma group_total (log : list E) :
  sumZ (λ e, μ e.2) (fold_left (group_visit key init upd) log []) = sumZ δ log.
Proof.
  induction log as [|x log IH] using rev_ind; [done|].
  rewrite fold_left_app. simpl. unfold group_visit at 1.
  rewrite sumZ_map_set, IH, μ_upd.
  assert (Hs : sumZ δ (log ++ [x]) = sumZ δ log + δ x).
  { clear. induction log as [|y log IH]; simpl; lia. }
  rewrite Hs. destruct (map_get _ (key x)) as [v|]; simpl; [lia|].
  rewrite μ_init. lia.
Qed.
End Total.
End GroupBy.

(** ** The second pass and the values of the map *)

Section AfterPass.
Context {V : Type} (name : V → string) (post : string * V → string * V).
Hypothesis post_key : ∀ e, (post e).1 = e.1.
Hypothesis post_name : ∀ e, name (post e).2 = name e.2.

Lemma find_after_pass (m : list (string * V)) (k : string) :
  Forall (λ e, name e.2 = e.1) m →
  snd <$> list_find (λ v, name v = k) (map_values (post <$> m))
  = (λ v, (post (k, v)).2) <$> map_get m k.
Proof.
  unfold map_values. induction 1 as [|[k0 v0] m Hk Hm IH]; [done|].
  simpl in Hk. subst k0. rewrite !fmap_cons. cbn [list_find map_get].
  rewrite post_name. cbn [snd].
  destruct (decide (name v0 = k)) as [<-|Hne].
  - by rewrite decide_True.
  - rewrite decide_False by done. rewrite <- IH.
    by destruct (list_find _ _) as [[i t]|].
Qed.

Lemma names_after_pass (m : list (string * V)) :
  Forall (λ e, name e.2 = e.1) m →
  name <$> map_values (post <$> m) = m.*1.
Proof.
  unfold map_values. induction 1 as [|[k0 v0] m Hk Hm IH]; [done|].
  rewrite !fmap_cons, IH, post_name. simpl in *. by rewrite Hk.
Qed.

Lemma sumZ_after_pass (μ : V → Z) (m : list (string * V)) :
  (∀ e, μ (post e).2 = μ e.2) →
  sumZ μ (map_values (post <$> m)) = sumZ (λ e, μ e.2) m.
Proof.
  intros Hμ. unfold map_values. induction m as [|e m IH]; [done|].
  rewrite !fmap_cons. simpl. by rewrite IH, Hμ.
Qed.
End AfterPass.

Lemma fold_left_add {A} (δ : A → Z) (xs : list A) (a : Z) :
  fold_left (λ c x, c + δ x) xs a = a + sumZ δ xs.
Proof.
  revert a. induction xs as [|x xs IH]; intros a; simpl; [lia|]. rewrite IH. lia.
Qed.

Lemma sumZ_indicator {A} (P : A → Prop) `{∀ x, Decision (P x)} (l : list A) :
  sumZ (λ x, indicator (P x)) l = Z.of_nat (length (filter P l)).
Proof.
  induction l as [|x l IH]; [done|]. rewrite filter_cons. simpl. rewrite IH.
  unfold indicator. case_decide; simpl; lia.
Qed.

Lemma sumZ_one {A} (l : list A) : sumZ (λ _, 1) l = Z.of_nat (length l).
Proof. induction l as [|x l IH]; simpl; lia. Qed.

Lemma sumZ_app {A} (f : A → Z) (l k : list A) : sumZ f (l ++ k) = sumZ f l + sumZ f k.
Proof. induction l as [|x l IH]; simpl; lia. Qed.

(** The three first passes keep the name, count every event, and add the
    bytes and the tokens. *)
Lemma tool_name_update (v : ToolMetrics) (x : MCPToolCall) :
  tm_name (tool_update v x) = tm_name v.
Proof. reflexivity. Qed.

Lemma resource_name_update (v : ResourceMetrics) (x : MCPResourceAccess) :
  rm_uri (resource_update v x) = rm_uri v.
Proof. reflexivity. Qed.

Lemma prompt_name_update (v : PromptMetrics) (x : MCPPromptCall) :
  pm_name (prompt_update v x) = pm_name v.
Proof. reflexivity. Qed.

Lemma success_update (s t : Status) (n : Z) :
  (if decide (s = t) then n + 1 else n) = n + indicator (s = t).
Proof. unfold indicator. case_decide; lia. Qed.

Lemma counted_update (total : Z) (n : option Z) :
  (if truthy_number n then total + unwrap n else total) = total + counted n.
Proof.
  destruct n as [k|]; simpl; [|lia].
  destruct (Z.eqb_spec k 0) as [->|]; simpl; lia.
Qed.




Lemma tool_average_facts (log : list MCPToolCall) (e : string * ToolMetrics) :
  (tool_average log e).1 = e.1
  ∧ tm_name (tool_average log e).2 = tm_name e.2
  ∧ tm_callCount (tool_average log e).2 = tm_callCount e.2
  ∧ tm_successCount (tool_average log e).2 = tm_successCount e.2
  ∧ tm_errorCount (tool_average log e).2 = tm_errorCount e.2
  ∧ lastCalled (tool_average log e).2 = lastCalled e.2
  ∧ tm_errors (tool_average log e).2 = tm_errors e.2
  ∧ tm_avgDuration (tool_average log e).2 = mean (tool_durations log e.1).
Proof. by destruct e. Qed.

Lemma resource_average_facts (log : list MCPResourceAccess)
  (e : string * ResourceMetrics) :
  (resource_average log e).1 = e.1
  ∧ rm_uri (resource_average log e).2 = rm_uri e.2
  ∧ accessCount (resource_average log e).2 = accessCount e.2
  ∧ rm_successCount (resource_average log e).2 = rm_successCount e.2
  ∧ rm_errorCount (resource_average log e).2 = rm_errorCount e.2
  ∧ totalBytesTransferred (resource_average log e).2 = totalBytesTransferred e.2
  ∧ rm_avgDuration (resource_average log e).2 = mean (resource_durations log e.1).
Proof. by destruct e. Qed.

Lemma prompt_average_facts (log : list MCPPromptCall) (e : string * PromptMetrics) :
  (prompt_average log e).1 = e.1
  ∧ pm_name (prompt_average log e).2 = pm_name e.2
  ∧ pm_callCount (prompt_average log e).2 = pm_callCount e.2
  ∧ pm_successCount (prompt_average log e).2 = pm_successCount e.2
  ∧ pm_errorCount (prompt_average log e).2 = pm_errorCount e.2
  ∧ totalTokens (prompt_average log e).2 = totalTokens e.2
  ∧ pm_avgDuration (prompt_average log e).2 = mean (prompt_durations log e.1).
Proof. by destruct e. Qed.

Lemma tool_first_pass_named (log : list MCPToolCall) :
  Forall (λ e, tm_name e.2 = e.1) (fold_left tool_visit log []).
Proof. rewrite tool_visit_group. by apply group_named. Qed.

Lemma resource_first_pass_named (log : list MCPResourceAccess) :
  Forall (λ e, rm_uri e.2 = e.1) (fold_left resource_visit log []).
Proof. rewrite resource_visit_group. by apply group_named. Qed.

Lemma prompt_first_pass_named (log : list MCPPromptCall) :
  Forall (λ e, pm_name e.2 = e.1) (fold_left prompt_visit log []).
Proof. rewrite prompt_visit_group. by apply group_named. Qed.

(** ** One aggregate per name *)

(** X5. A snapshot lists exactly one aggregate for each distinct tool name,
    resource URI and prompt name of the stored logs, in the order in which
    the names first occur in their log. *)
Theorem one_aggregate_per_name (w : World) :
  let snapshot := eval getMetrics w in
  let c := engine w in
  tm_name <$> sm_tools snapshot = first_seen (tool_key <$> toolCalls c)
  ∧ rm_uri <$> sm_resources snapshot = first_seen (resource_key <$> resourceAccesses c)
  ∧ pm_name <$> sm_prompts snapshot = first_seen (prompt_key <$> promptCalls c)
  ∧ NoDup (tm_name <$> sm_tools snapshot)
  ∧ NoDup (rm_uri <$> sm_resources snapshot)
  ∧ NoDup (pm_name <$> sm_prompts snapshot).
Proof.
  intros snapshot c.
  assert (Ht : tm_name <$> sm_tools snapshot = first_seen (tool_key <$> toolCalls c)).
  { change (sm_tools snapshot) with (calculateToolMetrics c).
    unfold calculateToolMetrics.
    rewrite (names_after_pass tm_name (tool_average (toolCalls c)));
      [|intros e; apply tool_average_facts|apply tool_first_pass_named].
    rewrite tool_visit_group. apply group_keys. }
  assert (Hr : rm_uri <$> sm_resources snapshot
               = first_seen (resource_key <$> resourceAccesses c)).
  { change (sm_resources snapshot) with (calculateResourceMetrics c).
    unfold calculateResourceMetrics.
    rewrite (names_after_pass rm_uri (resource_average (resourceAccesses c)));
      [|intros e; apply resource_average_facts|apply resource_first_pass_named].
    rewrite resource_visit_group. apply group_keys. }
  assert (Hp : pm_name <$> sm_prompts snapshot
               = first_seen (prompt_key <$> promptCalls c)).
  { change (sm_prompts snapshot) with (calculatePromptMetrics c).
    unfold calculatePromptMetrics.
    rewrite (names_after_pass pm_name (prompt_average (promptCalls c)));
      [|intros e; apply prompt_average_facts|apply prompt_first_pass_named].
    rewrite prompt_visit_group. apply group_keys. }
  rewrite Ht, Hr, Hp. split_and!; try done; apply first_seen_NoDup.
Qed.

(** ** Per-name aggregates of resources and prompts *)



Lemma tool_first_pass_field {T} (μ : ToolMetrics → T) (e0 : T)
  (step : T → MCPToolCall → T) (log : list MCPToolCall) (name : string) :
  (∀ x, μ (tool_init x) = e0) →
  (∀ v x, μ (tool_update v x) = step (μ v) x) →
  μ <$> map_get (fold_left tool_visit log []) name
  = match calls_on name log with
    | [] => None
    | xs => Some (fold_left step xs e0)
    end.
Proof.
  intros H0 H1. rewrite tool_visit_group.
  apply (group_field tool_key tool_init tool_update μ e0 step H0 H1).
Qed.

(** Reads the value of a field of an entry off the equation that the first
    pass gives for it. *)
Lemma read_first_pass {A V T} (μ : V → T) (v : V) (xs : list A) (r : list A → T) :
  μ <$> Some v = match xs with [] => None | y :: ys => Some (r (y :: ys)) end →
  xs ≠ [] ∧ μ v = r xs.
Proof. destruct xs; simpl; [done|]. intros [= ->]. done. Qed.

Lemma read_first_pass_None {A V T} (μ : V → T) (xs : list A) (r : list A → T) :
  μ <$> None = match xs with [] => None | y :: ys => Some (r (y :: ys)) end →
  xs = [].
Proof. by destruct xs. Qed.



(** ** The last call and the error messages of a tool *)

Lemma foldr_max_shift (a b : Z) (l : list Z) :
  foldr Z.max (Z.max a b) l = Z.max b (foldr Z.max a l).
Proof. induction l as [|x l IH]; simpl; [lia|]. rewrite IH. lia. Qed.

Lemma fold_left_max {A} (f : A → Z) (xs : list A) (a : Z) :
  fold_left (λ n x, Z.max n (f x)) xs a = foldr Z.max a (f <$> xs).
Proof.
  revert a. induction xs as [|x xs IH]; intros a; [done|].
  simpl fold_left. rewrite IH, fmap_cons. simpl. apply foldr_max_shift.
Qed.

Lemma fold_left_collect {A B} (g : A → option B) (step : list B → A → list B)
  (xs : list A) (acc : list B) :
  (∀ l x, step l x = l ++ option_list (g x)) →
  fold_left step xs acc = acc ++ omap g xs.
Proof.
  intros Hs. revert acc. induction xs as [|x xs IH]; intros acc; simpl.
  - by rewrite app_nil_r.
  - rewrite IH, Hs. destruct (g x); simpl; by rewrite <- ?app_assoc, ?app_nil_r.
Qed.

Lemma tool_errors_step (l : list string) (x : MCPToolCall) :
  (if decide (tc_status x = error) then
     if truthy_string (tc_error x) then push (default "" (tc_error x)) l else l
   else l)
  = l ++ option_list (reported_error x).
Proof.
  unfold reported_error, push. destruct (decide (tc_status x = error)); simpl.
  - destruct (tc_error x) as [m|]; simpl; [|by rewrite app_nil_r].
    destruct (String.eqb_spec m ""); simpl.
    + rewrite decide_True by done. by rewrite app_nil_r.
    + by rewrite decide_False.
  - by rewrite app_nil_r.
Qed.

(** X8. In the aggregate of a tool, [lastCalled] is the largest timestamp of
    the stored calls of that tool, and at least 0; [errors] lists, in the
    order of the calls, the error strings of the calls with status ['error']
    whose error string is present and not empty. *)
Theorem tool_last_called_and_errors (w : World) (name : string) :
  let on := calls_on name (toolCalls (engine w)) in
  match find_tool (sm_tools (eval getMetrics w)) name with
  | None => on = []
  | Some t =>
      on ≠ []
      ∧ lastCalled t = latest (tc_timestamp <$> on)
      ∧ Forall (λ c : MCPToolCall, tc_timestamp c ≤ lastCalled t) on
      ∧ tm_errors t = omap reported_error on
  end.
Proof.
  intros on. set (log := toolCalls (engine w)) in *.
  change (sm_tools (eval getMetrics w))
    with (map_values (tool_average log <$> fold_left tool_visit log [])).
  unfold find_tool.
  rewrite (find_after_pass tm_name (tool_average log));
    [|intros e; apply tool_average_facts..|apply tool_first_pass_named].
  pose proof (tool_first_pass_field lastCalled 0
                (λ n x, Z.max n (tc_timestamp x)) log name
                ltac:(done) ltac:(done)) as Hl.
  pose proof (tool_first_pass_field tm_errors []
                (λ l x, if decide (tc_status x = error) then
                          if truthy_string (tc_error x)
                          then push (default "" (tc_error x)) l else l
                        else l) log name ltac:(done) ltac:(done)) as He.
  fold on in Hl, He.
  destruct (map_get (fold_left tool_visit log []) name) as [v|] eqn:Ev.
  - simpl fmap.
    apply (read_first_pass _ _ _ (λ xs, fold_left _ xs _)) in Hl as [Hne Hl].
    apply (read_first_pass _ _ _ (λ xs, fold_left _ xs _)) in He as [_ He].
    cbn [lastCalled tm_errors]. rewrite Hl, He, fold_left_max.
    rewrite (fold_left_collect reported_error) by apply tool_errors_step.
    split_and!; try done.
    clear. induction on as [|c on IH]; [constructor|].
    rewrite fmap_cons. constructor; simpl.
    + unfold latest. simpl. lia.
    + eapply Forall_impl; [exact IH|]. intros x Hx. unfold latest in *. simpl in *. lia.
  - simpl fmap. by apply (read_first_pass_None _ _ (λ xs, fold_left _ xs _)) in Hl.
Qed.

(** ** The aggregates partition the logs *)

Lemma tool_counts_total (log : list MCPToolCall) (μ : ToolMetrics → Z)
  (δ : MCPToolCall → Z) :
  (∀ e, μ (tool_average log e).2 = μ e.2) →
  (∀ x, μ (tool_init x) = 0) →
  (∀ v x, μ (tool_update v x) = μ v + δ x) →
  sumZ μ (map_values (tool_average log <$> fold_left tool_visit log [])) = sumZ δ log.
Proof.
  intros Ha H0 H1. rewrite sumZ_after_pass by done. rewrite tool_visit_group.
  by apply group_total.
Qed.

Lemma resource_counts_total (log : list MCPResourceAccess) (μ : ResourceMetrics → Z)
  (δ : MCPResourceAccess → Z) :
  (∀ e, μ (resource_average log e).2 = μ e.2) →
  (∀ x, μ (resource_init x) = 0) →
  (∀ v x, μ (resource_update v x) = μ v + δ x) →
  sumZ μ (map_values (resource_average log <$> fold_left resource_visit log []))
  = sumZ δ log.
Proof.
  intros Ha H0 H1. rewrite sumZ_after_pass by done. rewrite resource_visit_group.
  by apply group_total.
Qed.

Lemma prompt_counts_total (log : list MCPPromptCall) (μ : PromptMetrics → Z)
  (δ : MCPPromptCall → Z) :
  (∀ e, μ (prompt_average log e).2 = μ e.2) →
  (∀ x, μ (prompt_init x) = 0) →
  (∀ v x, μ (prompt_update v x) = μ v + δ x) →
  sumZ μ (map_values (prompt_average log <$> fold_left prompt_visit log []))
  = sumZ δ log.
Proof.
  intros Ha H0 H1. rewrite sumZ_after_pass by done. rewrite prompt_visit_group.
  by apply group_total.
Qed.

(** X9. The per-name aggregates of a snapshot partition its totals: the call
    counts of all aggregates add up to totalRequests, their success counts to
    successfulRequests and their error counts to the number of stored events
    with status ['error']; the byte totals of the resources and the token
    totals of the prompts add up to the bytes and tokens of all stored
    events. *)
Theorem aggregates_partition (w : World) :
  let snapshot := eval getMetrics w in
  let c := engine w in
  sumZ tm_callCount (sm_tools snapshot) + sumZ accessCount (sm_resources snapshot)
  + sumZ pm_callCount (sm_prompts snapshot) = totalRequests snapshot
  ∧ sumZ tm_successCount (sm_tools snapshot)
    + sumZ rm_successCount (sm_resources snapshot)
    + sumZ pm_successCount (sm_prompts snapshot) = successfulRequests snapshot
  ∧ sumZ tm_errorCount (sm_tools snapshot) + sumZ rm_errorCount (sm_resources snapshot)
    + sumZ pm_errorCount (sm_prompts snapshot) = events_with_status error c
  ∧ sumZ totalBytesTransferred (sm_resources snapshot)
    = sumZ (λ a : MCPResourceAccess, counted (bytesTransferred a)) (resourceAccesses c)
  ∧ sumZ totalTokens (sm_prompts snapshot)
    = sumZ (λ p : MCPPromptCall, counted (tokensGenerated p)) (promptCalls c).
Proof.
  intros snapshot c.
  destruct (getMetrics_counts w) as (Ht & Hs & _ & _ & _).
  fold snapshot c in Ht, Hs. rewrite Ht, Hs. unfold total_requests, events_with_status.
  change (sm_tools snapshot) with
    (map_values (tool_average (toolCalls c) <$> fold_left tool_visit (toolCalls c) [])).
  change (sm_resources snapshot) with
    (map_values (resource_average (resourceAccesses c)
                   <$> fold_left resource_visit (resourceAccesses c) [])).
  change (sm_prompts snapshot) with
    (map_values (prompt_average (promptCalls c)
                   <$> fold_left prompt_visit (promptCalls c) [])).
  rewrite (tool_counts_total _ tm_callCount (λ _, 1));
    [|by intros []|done|done].
  rewrite (resource_counts_total _ accessCount (λ _, 1));
    [|by intros []|done|done].
  rewrite (prompt_counts_total _ pm_callCount (λ _, 1));
    [|by intros []|done|done].
  rewrite (tool_counts_total _ tm_successCount
             (λ x : MCPToolCall, indicator (tc_status x = success)));
    [|by intros []|done|intros; apply success_update].
  rewrite (resource_counts_total _ rm_successCount
             (λ x : MCPResourceAccess, indicator (ra_status x = success)));
    [|by intros []|done|intros; apply success_update].
  rewrite (prompt_counts_total _ pm_successCount
             (λ x : MCPPromptCall, indicator (pc_status x = success)));
    [|by intros []|done|intros; apply success_update].
  rewrite (tool_counts_total _ tm_errorCount
             (λ x : MCPToolCall, indicator (tc_status x = error)));
    [|by intros []|done|intros; apply success_update].
  rewrite (resource_counts_total _ rm_errorCount
             (λ x : MCPResourceAccess, indicator (ra_status x = error)));
    [|by intros []|done|intros; apply success_update].
  rewrite (prompt_counts_total _ pm_errorCount
             (λ x : MCPPromptCall, indicator (pc_status x = error)));
    [|by intros []|done|intros; apply success_update].
  rewrite (resource_counts_total _ totalBytesTransferred
             (λ x : MCPResourceAccess, counted (bytesTransferred x)));
    [|by intros []|done|intros; apply counted_update].
  rewrite (prompt_counts_total _ totalTokens
             (λ x : MCPPromptCall, counted (tokensGenerated x)));
    [|by intros []|done|intros; apply counted_update].
  rewrite !sumZ_one, !sumZ_indicator. by split_and!.
Qed.

(** ** Counts, recent errors and averages of a snapshot *)

Lemma status_split {A} (status : A → Status) (l : list A) :
  Z.of_nat (length l)
  = Z.of_nat (length (filter (λ x, status x = success) l))
    + Z.of_nat (length (filter (λ x, status x = error) l))
    + Z.of_nat (length (filter (λ x, status x = pending) l)).
Proof.
  induction l as [|x l IH]; [done|]. rewrite !filter_cons. simpl length.
  destruct (status x); repeat case_decide; try done; simpl length; lia.
Qed.

(** X10. In a snapshot, successfulRequests is the number of stored events
    with status ['success'] and failedRequests the number of stored events
    with status ['error'] or ['pending']; both lie between 0 and
    totalRequests. *)
Theorem request_counts (w : World) :
  let snapshot := eval getMetrics w in
  let c := engine w in
  successfulRequests snapshot = events_with_status success c
  ∧ failedRequests snapshot
    = events_with_status error c + events_with_status pending c
  ∧ 0 ≤ successfulRequests snapshot ≤ totalRequests snapshot
  ∧ 0 ≤ failedRequests snapshot ≤ totalRequests snapshot.
Proof.
  intros snapshot c.
  destruct (getMetrics_counts w) as (Ht & Hs & Hf & _ & _).
  fold snapshot c in Ht, Hs, Hf. rewrite Hf, Ht, Hs.
  unfold total_requests, events_with_status.
  pose proof (status_split (λ x : MCPToolCall, tc_status x) (toolCalls c)).
  pose proof (status_split (λ x : MCPResourceAccess, ra_status x) (resourceAccesses c)).
  pose proof (status_split (λ x : MCPPromptCall, pc_status x) (promptCalls c)).
  cbv beta in *. lia.
Qed.

(** X11. The errors of a snapshot are the most recent records of the error
    log, in the order of the log: all of them when there are at most 100,
    the last 100 otherwise. *)
Theorem snapshot_errors (w : World) :
  let shown := sm_errors (eval getMetrics w) in
  let log := errors (engine w) in
  shown `suffix_of` log
  ∧ Z.of_nat (length shown) = Z.min (Z.of_nat (length log)) 100
  ∧ if decide (length log ≤ 100)%nat then shown = log
    else shown = drop (length log - 100) log.
Proof.
  intros shown log. change shown with (slice_last 100 log).
  split_and!.
  - apply slice_last_suffix.
  - by apply slice_last_length.
  - unfold slice_last. case_decide.
    + replace (Z.to_nat _) with 0%nat by lia. done.
    + f_equal. lia.
Qed.


(** ** Integers in doubles *)

(** Sums of integers of at most 53 bits are exact: rounding a mantissa and
    an exponent that stand for such an integer gives its double. *)





















(** X13. For a non-empty duration log each of p50, p95 and p99 is one of the
    recorded durations. *)
Theorem percentiles_are_recorded (w : World) :
  latencies (engine w) ≠ [] →
  let perf := performance (eval getMetrics w) in
  ∃ a b c : Z,
    p50Latency perf = Some a ∧ p95Latency perf = Some b ∧ p99Latency perf = Some c
    ∧ a ∈ latencies (engine w) ∧ b ∈ latencies (engine w) ∧ c ∈ latencies (engine w).
Proof.
  intros Hne perf.
  destruct (getMetrics_percentiles w) as (E50 & E95 & E99 & _).
  fold perf in E50, E95, E99.
  set (sorted := sort_ascending (latencies (engine w))) in *.
  assert (Hs : sorted ≠ []).
  { intros E. apply Hne, length_zero_iff_nil.
    by rewrite <- sort_ascending_length; fold sorted; rewrite E. }
  assert (Hin : ∀ p, (0 < p)%Q → (p <= 1)%Q →
                ∃ x, percentile sorted p = Some x ∧ x ∈ latencies (engine w)).
  { intros p Hp Hp1.
    destruct (percentile_in_range sorted p Hs Hp Hp1) as [-> Hlt].
    destruct (lookup_lt_is_Some_2 _ _ Hlt) as [x Hx]. exists x. split; [done|].
    rewrite <- (sort_ascending_perm (latencies (engine w))).
    by eapply list_elem_of_lookup_2. }
  destruct (Hin (50 # 100) eq_refl ltac:(done)) as (a & Ha & Ia).
  destruct (Hin (95 # 100) eq_refl ltac:(done)) as (b & Hb & Ib).
  destruct (Hin (99 # 100) eq_refl ltac:(done)) as (c & Hc & Ic).
  exists a, b, c. split_and!; congruence.
Qed.

Lemma percentiles_are_recorded_witness :
  latencies (engine read_file_world) ≠ []
  ∧ ∃ a b c : Z,
      p50Latency (performance (eval getMetrics read_file_world)) = Some a
      ∧ p95Latency (performance (eval getMetrics read_file_world)) = Some b
      ∧ p99Latency (performance (eval getMetrics read_file_world)) = Some c
      ∧ a ∈ latencies (engine read_file_world)
      ∧ b ∈ latencies (engine read_file_world)
      ∧ c ∈ latencies (engine read_file_world).
Proof.
  assert (H : latencies (engine read_file_world) ≠ []) by (vm_compute; discriminate).
  split; [exact H|]. exact (percentiles_are_recorded read_file_world H).
Defined.

(** ** Request rates *)

Lemma filter_length_mono {A} (P Q : A → Prop) `{∀ x, Decision (P x)}
  `{∀ x, Decision (Q x)} (l : list A) :
  (∀ x, P x → Q x) → (length (filter P l) ≤ length (filter Q l))%nat.
Proof.
  intros HPQ. induction l as [|x l IH]; [done|]. rewrite !filter_cons.
  destruct (decide (P x)) as [HP|HP].
  - rewrite decide_True by auto. simpl. lia.
  - destruct (decide (Q x)); simpl; lia.
Qed.

Lemma getMetrics_request_rates (w : World) :
  let snapshot := eval getMetrics w in
  let stamps := requestTimestamps (engine w) in
  requestsPerSecond (performance snapshot)
  = Z.of_nat (length (filter (λ t, now_of (tick w) - 1000 ≤ t) stamps))
  ∧ requestsPerMinute snapshot
    = Z.of_nat (length (filter (λ t, now_of (tick (tick w)) - 60000 ≤ t) stamps)).
Proof. by split. Qed.

(** X14. A snapshot reads the clock three times: for the uptime, for the
    requests of the last second and for those of the last minute.
    requestsPerSecond is the number of stored timestamps that are at most
    1000 ms older than the second reading, requestsPerMinute the number of
    those that are at most 60,000 ms older than the third.  Hence
    0 ≤ requestsPerSecond, requestsPerMinute ≤ the number of stored
    timestamps, and requestsPerSecond ≤ requestsPerMinute when the third
    reading is at most 59 seconds after the second. *)
Theorem request_rates (w : World) :
  let snapshot := eval getMetrics w in
  let stamps := requestTimestamps (engine w) in
  let second := now_of (tick w) in
  let third := now_of (tick (tick w)) in
  clock_reads (host (exec getMetrics w)) = (clock_reads (host w) + 3)%nat
  ∧ requestsPerSecond (performance snapshot)
    = Z.of_nat (length (filter (λ t, second - 1000 ≤ t) stamps))
  ∧ requestsPerMinute snapshot
    = Z.of_nat (length (filter (λ t, third - 60000 ≤ t) stamps))
  ∧ 0 ≤ requestsPerSecond (performance snapshot)
  ∧ requestsPerMinute snapshot ≤ Z.of_nat (length stamps)
  ∧ (third - 60000 ≤ second - 1000 →
     requestsPerSecond (performance snapshot) ≤ requestsPerMinute snapshot).
Proof.
  cbv zeta.
  destruct (getMetrics_request_rates w) as [-> ->].
  split_and!; [simpl; lia|done|done|lia| |].
  - apply inj_le, length_filter.
  - intros Hclock. apply inj_le, filter_length_mono. intros t Ht. lia.
Qed.

Lemma request_rates_witness :
  requestTimestamps (engine spread_world) = [600; 1200; 1800]
  ∧ now_of (tick spread_world) = 2700
  ∧ now_of (tick (tick spread_world)) = 3000
  ∧ requestsPerSecond (performance (eval getMetrics spread_world)) = 1
  ∧ requestsPerMinute (eval getMetrics spread_world) = 3.
Proof.
  destruct (request_rates spread_world) as (_ & Hs & Hm & _).
  split_and!; [reflexivity..| |].
  - rewrite Hs. reflexivity.
  - rewrite Hm. reflexivity.
Defined.

(** ** More on the sweep *)

Lemma filter_all {A} (P : A → Prop) `{∀ x, Decision (P x)} (l : list A) :
  Forall P l → filter P l = l.
Proof.
  induction 1 as [|x l Hx _ IH]; [done|].
  rewrite filter_cons, decide_True by done. by rewrite IH.
Qed.

Lemma filter_filter_implied {A} (P Q : A → Prop) `{∀ x, Decision (P x)}
  `{∀ x, Decision (Q x)} (l : list A) :
  (∀ x, Q x → P x) → filter Q (filter P l) = filter Q l.
Proof.
  intros HQP. induction l as [|x l IH]; [done|]. rewrite !filter_cons.
  destruct (decide (P x)) as [HP|HP].
  - rewrite filter_cons. by rewrite IH.
  - rewrite IH. rewrite decide_False; [done|]. intros HQ. by apply HP, HQP.
Qed.

Lemma filter_comm {A} (P Q : A → Prop) `{∀ x, Decision (P x)}
  `{∀ x, Decision (Q x)} (l : list A) :
  filter P (filter Q l) = filter Q (filter P l).
Proof.
  induction l as [|x l IH]; [done|]. rewrite !filter_cons.
  destruct (decide (P x)), (decide (Q x)); rewrite ?filter_cons;
    rewrite ?decide_True, ?decide_False by done; by rewrite IH.
Qed.

Lemma slice_last_short {A} (n : Z) (l : list A) :
  Z.of_nat (length l) ≤ n → slice_last n l = l.
Proof. intros H. unfold slice_last. by replace (Z.to_nat _) with 0%nat by lia. Qed.

Lemma slice_last_idem {A} (n : Z) (l : list A) :
  0 ≤ n → slice_last n (slice_last n l) = slice_last n l.
Proof. intros Hn. apply slice_last_short. rewrite slice_last_length by done. lia. Qed.

Lemma cleanup_engine (w : World) :
  engine (exec cleanup w)
  = {| toolCalls :=
         filter (λ x : MCPToolCall, cutoff_of w ≤ tc_timestamp x) (toolCalls (engine w));
       resourceAccesses :=
         filter (λ r : MCPResourceAccess, cutoff_of w ≤ ra_timestamp r)
                (resourceAccesses (engine w));
       promptCalls :=
         filter (λ p : MCPPromptCall, cutoff_of w ≤ pc_timestamp p)
                (promptCalls (engine w));
       errors := filter (λ e : ErrorLog, cutoff_of w ≤ el_timestamp e) (errors (engine w));
       startTime := startTime (engine w);
       config := config (engine w);
       latencies := slice_last 10000 (latencies (engine w));
       requestTimestamps := filter (λ t, cutoff_of w ≤ t) (requestTimestamps (engine w))
    |}.
Proof. reflexivity. Qed.

Lemma cleanup_host (w : World) : host (exec cleanup w) = host (tick w).
Proof. reflexivity. Qed.

(** X15. A sweep that finds nothing older than its cutoff and at most 10,000
    durations changes nothing in the collector. *)
Theorem cleanup_nothing_to_do (w : World) :
  nothing_older (cutoff_of w) (engine w) →
  Z.of_nat (length (latencies (engine w))) ≤ 10000 →
  engine (exec cleanup w) = engine w.
Proof.
  intros (Ht & Hr & Hp & He & Hs) Hl. rewrite cleanup_engine.
  rewrite !filter_all by done. rewrite slice_last_short by done.
  by destruct (engine w).
Qed.

Lemma cleanup_nothing_to_do_witness :
  nothing_older (cutoff_of read_file_world) (engine read_file_world)
  ∧ Z.of_nat (length (latencies (engine read_file_world))) ≤ 10000
  ∧ engine (exec cleanup read_file_world) = engine read_file_world.
Proof.
  assert (H1 : nothing_older (cutoff_of read_file_world) (engine read_file_world)).
  { unfold nothing_older. split_and!; vm_compute; repeat constructor; discriminate. }
  assert (H2 : Z.of_nat (length (latencies (engine read_file_world))) ≤ 10000)
    by (vm_compute; discriminate).
  split_and!; [exact H1|exact H2|].
  exact (cleanup_nothing_to_do read_file_world H1 H2).
Defined.

(** X16. Two sweeps in a row leave in the collector what a single sweep at the
    time of the second leaves, provided the clock has not gone back between
    them. *)
Theorem cleanup_twice (w : World) :
  now_of w ≤ now_of (tick w) →
  engine (exec cleanup (exec cleanup w)) = engine (exec cleanup (tick w)).
Proof.
  intros Hclock.
  assert (Hc : cutoff_of (exec cleanup w) = cutoff_of (tick w)) by reflexivity.
  assert (Hle : cutoff_of w ≤ cutoff_of (tick w)).
  { unfold cutoff_of. rewrite engine_tick. lia. }
  rewrite (cleanup_engine (exec cleanup w)), (cleanup_engine (tick w)), Hc.
  rewrite (cleanup_engine w). cbn [toolCalls resourceAccesses promptCalls errors
    startTime config latencies requestTimestamps]. rewrite engine_tick.
  rewrite !filter_filter_implied by (intros; lia).
  by rewrite slice_last_idem.
Qed.

Lemma cleanup_twice_witness :
  now_of read_file_world ≤ now_of (tick read_file_world)
  ∧ engine (exec cleanup (exec cleanup read_file_world))
    = engine (exec cleanup (tick read_file_world)).
Proof.
  assert (H : now_of read_file_world ≤ now_of (tick read_file_world))
    by (vm_compute; discriminate).
  split; [exact H|]. exact (cleanup_twice read_file_world H).
Defined.

(** X17. A snapshot taken after a sweep counts only what the sweep kept:
    totalRequests is the number of events that were not older than the
    cutoff, no error listed is older than the cutoff, and the aggregate of a
    tool exists exactly when one of its calls was kept and counts the calls
    kept. *)
Theorem snapshot_after_sweep (w : World) (name : string) :
  let cutoff := cutoff_of w in
  let snapshot := eval getMetrics (exec cleanup w) in
  let kept :=
    filter (λ x : MCPToolCall, cutoff ≤ tc_timestamp x)
           (calls_on name (toolCalls (engine w))) in
  totalRequests snapshot = events_since cutoff (engine w)
  ∧ Forall (λ e : ErrorLog, cutoff ≤ el_timestamp e) (sm_errors snapshot)
  ∧ match find_tool (sm_tools snapshot) name with
    | None => kept = []
    | Some t => kept ≠ [] ∧ tm_callCount t = Z.of_nat (length kept)
    end.
Proof.
  intros cutoff snapshot kept.
  destruct (getMetrics_counts (exec cleanup w)) as (Ht & _ & _ & Htools & Herr).
  fold snapshot in Ht, Htools, Herr. rewrite Ht, Htools, Herr.
  assert (Hon : calls_on name (toolCalls (engine (exec cleanup w))) = kept).
  { rewrite cleanup_engine. unfold kept, calls_on. cbn [toolCalls].
    apply filter_comm. }
  split_and!.
  - by rewrite cleanup_engine.
  - rewrite cleanup_engine. cbn [errors]. unfold slice_last. apply Forall_drop.
    apply (evicted_before_filter el_timestamp cutoff).
  - pose proof (calculateToolMetrics_find (engine (exec cleanup w)) name) as Hf.
    unfold counts_ok in Hf. rewrite Hon in Hf.
    destruct (find_tool _ name) as [t|]; [|done].
    destruct Hf as (Hne & (_ & Hc & _) & _). by rewrite Hc.
Qed.

(** X18. A sweep drops durations by count only, never by age.  When the
    duration log holds at most 10,000 entries the sweep leaves it as it is,
    whatever events it evicts, and the figures of a snapshot that are
    computed from the duration log, avgResponseTime, avgLatency, p50, p95
    and p99, are the same after the sweep as before it. *)
Theorem sweep_keeps_durations (w : World) :
  Z.of_nat (length (latencies (engine w))) ≤ 10000 →
  let before := eval getMetrics w in
  let after := eval getMetrics (exec cleanup w) in
  latencies (engine (exec cleanup w)) = latencies (engine w)
  ∧ avgResponseTime after = avgResponseTime before
  ∧ avgLatency (performance after) = avgLatency (performance before)
  ∧ p50Latency (performance after) = p50Latency (performance before)
  ∧ p95Latency (performance after) = p95Latency (performance before)
  ∧ p99Latency (performance after) = p99Latency (performance before).
Proof.
  intros Hl. cbv zeta.
  assert (E : latencies (engine (exec cleanup w)) = latencies (engine w)).
  { rewrite cleanup_engine. cbn [latencies]. by apply slice_last_short. }
  destruct (getMetrics_percentiles w) as (-> & -> & -> & ->).
  destruct (getMetrics_percentiles (exec cleanup w)) as (-> & -> & -> & ->).
  change (avgResponseTime (eval getMetrics (exec cleanup w)))
    with (calculateAvgDuration (engine (exec cleanup w))).
  change (avgResponseTime (eval getMetrics w)) with (calculateAvgDuration (engine w)).
  unfold calculateAvgDuration. by rewrite E.
Qed.

(** A sweep that evicts the only stored call: the duration log and
    avgResponseTime stay, while the aggregate of the tool, computed from the
    stored calls, is gone. *)
Lemma sweep_keeps_durations_witness :
  Z.of_nat (length (latencies (engine aged_world))) ≤ 10000
  ∧ length (toolCalls (engine aged_world)) = 1%nat
  ∧ toolCalls (engine (exec cleanup aged_world)) = []
  ∧ latencies (engine (exec cleanup aged_world)) = [100]
  ∧ avgResponseTime (eval getMetrics (exec cleanup aged_world))
    = avgResponseTime (eval getMetrics aged_world)
  ∧ tm_avgDuration <$> sm_tools (eval getMetrics aged_world) = [100%Q]
  ∧ sm_tools (eval getMetrics (exec cleanup aged_world)) = [].
Proof.
  assert (H : Z.of_nat (length (latencies (engine aged_world))) ≤ 10000)
    by (vm_compute; discriminate).
  split; [exact H|].
  destruct (sweep_keeps_durations aged_world H) as (Hl & Ha & _).
  split_and!; [reflexivity|reflexivity| |exact Ha|reflexivity|reflexivity].
  rewrite Hl. reflexivity.
Defined.

(** ** Identifiers *)

Lemma ingest_host (i : Ingestion) (w : World) :
  ids (host (exec (ingest i) w)) = ids (host w)
  ∧ ids_drawn (host (exec (ingest i) w))
    = (ids_drawn (host w) + length (drawn_ids i w))%nat.
Proof.
  unfold drawn_ids.
  destruct i as [x|x|x]; simpl ingest; simpl ingestion_status; by_ingestion; lia.
Qed.

Lemma ingest_stored_ids (i : Ingestion) (w : World) :
  ingestion_given_id i = None →
  stored_ids (engine (exec (ingest i) w)) ≡ₚ stored_ids (engine w) ++ drawn_ids i w.
Proof.
  unfold stored_ids, drawn_ids.
  destruct i as [x|x|x]; simpl ingest; simpl ingestion_status;
    simpl ingestion_given_id; intros Hid.
  - rewrite recordToolCall_toolCalls, recordToolCall_errors, Hid.
    destruct (recordToolCall_others w x) as (-> & -> & _).
    case_decide; rewrite !fmap_app; simpl; solve_Permutation.
  - rewrite recordResourceAccess_resourceAccesses, recordResourceAccess_errors, Hid.
    destruct (recordResourceAccess_others w x) as (-> & -> & _).
    case_decide; rewrite !fmap_app; simpl; solve_Permutation.
  - rewrite recordPromptCall_promptCalls, recordPromptCall_errors, Hid.
    destruct (recordPromptCall_others w x) as (-> & -> & _).
    case_decide; rewrite !fmap_app; simpl; solve_Permutation.
Qed.

Lemma ids_fresh_ingest (i : Ingestion) (w : World) :
  (∀ j k, ids (host w) j = ids (host w) k → j = k) →
  ingestion_given_id i = None →
  ids_fresh w → ids_fresh (exec (ingest i) w).
Proof.
  intros Hinj Hid [Hnd Hall]. unfold ids_fresh.
  destruct (ingest_host i w) as [-> ->].
  rewrite (ingest_stored_ids i w Hid).
  assert (Hnew : Forall (λ x, ∃ k, (ids_drawn (host w) ≤ k
                                    < ids_drawn (host w) + length (drawn_ids i w))%nat
                              ∧ x = ids (host w) k) (drawn_ids i w)).
  { unfold drawn_ids. case_decide; repeat constructor; eexists; (split; [|done]);
      simpl; lia. }
  split.
  - apply NoDup_app. split_and!; [done| |].
    + intros x Hx Hx'. rewrite Forall_forall in Hall, Hnew.
      destruct (Hall _ Hx) as (j & Hj & ->). destruct (Hnew _ Hx') as (k & Hk & E).
      apply Hinj in E. lia.
    + unfold drawn_ids. case_decide; [|apply NoDup_singleton].
      apply NoDup_cons. split; [|apply NoDup_singleton].
      intros E%list_elem_of_singleton%Hinj. lia.
  - apply Forall_app. split.
    + eapply Forall_impl; [exact Hall|]. intros x (k & Hk & ->). exists k. split; [lia|done].
    + eapply Forall_impl; [exact Hnew|]. intros x (k & Hk & ->). exists k. split; [lia|done].
Qed.

Lemma cleanup_stored_ids (w : World) :
  stored_ids (engine (exec cleanup w)) `sublist_of` stored_ids (engine w).
Proof.
  rewrite cleanup_engine. unfold stored_ids.
  cbn [toolCalls resourceAccesses promptCalls errors].
  repeat apply sublist_app; apply fmap_sublist, sublist_filter.
Qed.

Lemma ids_fresh_run_op (o : Op) (w : World) :
  (∀ j k, ids (host w) j = ids (host w) k → j = k) →
  carries_no_id o →
  ids_fresh w →
  ids_fresh (exec (run_op o) w) ∧ ids (host (exec (run_op o) w)) = ids (host w).
Proof.
  intros Hinj Hid Hw. destruct o as [i| | |]; simpl run_op.
  - split; [by apply ids_fresh_ingest|apply ingest_host].
  - split; [exact Hw|done].
  - split; [|done]. split; [apply NoDup_nil_2|constructor].
  - split; [|done]. destruct Hw as [Hnd Hall]. split.
    + eapply sublist_NoDup; [exact Hnd|apply cleanup_stored_ids].
    + rewrite Forall_forall in Hall |- *. intros x Hx.
      apply (Hall x). eapply sublist_subseteq; [apply cleanup_stored_ids|exact Hx].
Qed.

Lemma ids_fresh_run_ops (ops : list Op) (w : World) :
  (∀ j k, ids (host w) j = ids (host w) k → j = k) →
  Forall carries_no_id ops →
  ids_fresh w → ids_fresh (exec (run_ops ops) w).
Proof.
  intros Hinj Hops. revert w Hinj.
  induction Hops as [|o ops Ho _ IH]; intros w Hinj Hw; [done|].
  rewrite exec_run_ops_cons.
  destruct (ids_fresh_run_op o w Hinj Ho Hw) as [Hw' E].
  apply IH; [|done]. by rewrite E.
Qed.

Lemma NoDup_repeated_last {A} (l : list A) (x : A) : ¬ NoDup ((l ++ [x]) ++ [x]).
Proof.
  intros (_ & H & _)%NoDup_app. apply (H x); set_solver.
Qed.

(** X19. The collector stores an event under the [id] that its argument
    carries, and under a generated identifier only when the argument carries
    none.  When no argument carries an [id] and the generator never repeats
    itself, the identifiers of the stored events and error records are
    pairwise distinct after any sequence of ingestions, snapshots, sweeps
    and resets on a new collector.  An argument that carries an [id] and is
    ingested twice leaves two stored events with that [id], in whatever
    state. *)
Theorem stored_ids_are_distinct (cfg : MonitorConfig) (h : Host) :
  (∀ ops : list Op,
     (∀ j k, ids h j = ids h k → j = k) →
     Forall carries_no_id ops →
     NoDup (stored_ids (engine (exec (run_ops ops) (new_TelemetryCollector cfg h)))))
  ∧ (∀ (i : Ingestion) (given : string) (w : World),
       ingestion_given_id i = Some given →
       ¬ NoDup (stored_ids (engine (exec (ingest i) (exec (ingest i) w)))))
  ∧ (∀ (call : ToolCallInput) (given : string) (w : World),
       tc_given_id call = Some given →
       tc_id <$> last (toolCalls (engine (exec (recordToolCall call) w))) = Some given).
Proof.
  split_and!.
  - intros ops Hinj Hops. apply ids_fresh_run_ops; [done..|].
    split; [apply NoDup_nil_2|constructor].
  - intros i given w Hid. unfold stored_ids.
    destruct i as [x|x|x]; simpl ingest; simpl in Hid.
    + rewrite !recordToolCall_toolCalls, !fmap_app. simpl. rewrite Hid. simpl.
      intros (H & _)%NoDup_app. by apply NoDup_repeated_last in H.
    + rewrite !recordResourceAccess_resourceAccesses, !fmap_app. simpl.
      rewrite Hid. simpl.
      intros (_ & _ & (H & _)%NoDup_app)%NoDup_app. by apply NoDup_repeated_last in H.
    + rewrite !recordPromptCall_promptCalls, !fmap_app. simpl. rewrite Hid. simpl.
      intros (_ & _ & (_ & _ & (H & _)%NoDup_app)%NoDup_app)%NoDup_app.
      by apply NoDup_repeated_last in H.
  - intros call given w Hid.
    by rewrite recordToolCall_toolCalls, last_snoc; simpl; rewrite Hid.
Qed.

Lemma stored_ids_are_distinct_witness :
  (∀ j k, ids example_host j = ids example_host k → j = k)
  ∧ Forall carries_no_id example_ops
  ∧ NoDup (stored_ids (engine example_ops_world))
  ∧ length (stored_ids (engine example_ops_world)) = 3%nat.
Proof.
  assert (H : ∀ j k, ids example_host j = ids example_host k → j = k).
  { intros j k E. simpl in E. by apply (inj pretty) in E. }
  assert (Hops : Forall carries_no_id example_ops) by (repeat constructor).
  split_and!; [exact H|exact Hops| |reflexivity].
  destruct (stored_ids_are_distinct example_config example_host) as [Hd _].
  exact (Hd example_ops H Hops).
Defined.


(** * Further properties of the interceptor *)



Lemma wrap_of_run_fulfilled (kind : Kind) (name : string) (f : Capability)
  (inputs : list JSValue) (w w1 : World) (v : JSValue) :
  f inputs (tick w) = (Fulfilled v, w1) →
  ∃ ev, wrap_of kind name f inputs w = (Fulfilled v, exec (ingest ev) (tick w1))
        ∧ ingestion_kind ev = kind ∧ ingestion_name ev = name
        ∧ ingestion_status ev = success.
Proof.
  intros E. destruct kind; simpl wrap_of.
  - rewrite wrapTool_run, E. eexists (IngestTool _). rewrite ingest_tool. by split_and!.
  - rewrite wrapResource_run, E. eexists (IngestResource _).
    rewrite ingest_resource. by split_and!.
  - rewrite wrapPrompt_run, E. eexists (IngestPrompt _).
    rewrite ingest_prompt. by split_and!.
Qed.




(** X21. What a wrapped tool stores for a call that returns: the first
    argument of the call as parameters, replaced by an empty object when it
    is missing or falsy, the returned value as result, and as duration the
    difference between the clock reading after the original has returned and
    the reading before it was called; identifier and timestamp are drawn
    after that. *)
Theorem wrapped_tool_record
  (name : string) (f : Capability) (inputs : list JSValue) (w w1 : World)
  (v : JSValue) :
  f inputs (tick w) = (Fulfilled v, w1) →
  last (toolCalls (engine (exec (wrapTool name f inputs) w)))
  = Some {| tc_id := next_id w1;
            tc_timestamp := now_of (tick w1);
            tc_call :=
              {| tc_given_id := None;
                 tc_given_timestamp := None;
                 toolName := name;
                 params := match inputs with
                           | first :: _ => if truthy first then first else empty_object
                           | [] => empty_object
                           end;
                 tc_duration := Some (now_of w1 - now_of w);
                 tc_status := success;
                 tc_error := None;
                 tc_result := Some v;
                 tc_metadata := None |} |}.
Proof.
  intros E. unfold exec at 1. rewrite wrapTool_run, E. cbn [snd].
  rewrite recordToolCall_toolCalls, last_snoc. by destruct inputs.
Qed.

Lemma wrapped_tool_record_witness :
  echo [JSNumber 0] (tick example_world) = (Fulfilled (JSNumber 0), tick example_world)
  ∧ (λ r : MCPToolCall, (params r, tc_duration r))
      <$> last (toolCalls (engine (exec (wrapTool "echo" echo [JSNumber 0]) example_world)))
    = Some (empty_object, Some 1).
Proof.
  assert (H : echo [JSNumber 0] (tick example_world)
              = (Fulfilled (JSNumber 0), tick example_world)) by reflexivity.
  split; [exact H|].
  by rewrite (wrapped_tool_record "echo" echo [JSNumber 0] example_world _ _ H).
Defined.

(** X22. Instrumenting keeps the shape of a server: a kind that the server
    lacks stays absent, and under each kind the instrumented server offers a
    capability for exactly the names of the original. *)
Theorem instrument_keeps_names (server : MCPServer) :
  (tools (instrument server) = None ↔ tools server = None)
  ∧ (resources (instrument server) = None ↔ resources server = None)
  ∧ (prompts (instrument server) = None ↔ prompts server = None)
  ∧ ∀ (kind : Kind) (name : string),
      capability_of kind (instrument server) name = None
      ↔ capability_of kind server name = None.
Proof.
  split_and!.
  - simpl. by destruct (tools server).
  - simpl. by destruct (resources server).
  - simpl. by destruct (prompts server).
  - intros kind name. rewrite capability_of_instrument.
    by destruct (capability_of kind server name).
Qed.

Lemma capability_of_wrap_of (kind : Kind) (server : MCPServer) (name : string) :
  capability_of kind (instrument server) name
  = wrap_of kind name <$> capability_of kind server name.
Proof. rewrite capability_of_instrument. by destruct kind. Qed.

(** X23. Instrumenting a server twice doubles its telemetry: a capability of
    the twice-instrumented server still returns what the original returns,
    and the call stores two events. *)
Theorem instrumenting_twice
  (kind : Kind) (server : MCPServer) (name : string) (f : Capability)
  (inputs : list JSValue) (w w1 : World) (v : JSValue) :
  capability_of kind server name = Some f →
  f inputs (tick (tick w)) = (Fulfilled v, w1) →
  ∃ g : Capability,
    capability_of kind (instrument (instrument server)) name = Some g
    ∧ eval (g inputs) w = Fulfilled v
    ∧ total_requests (engine (exec (g inputs) w)) = total_requests (engine w1) + 2.
Proof.
  intros Hf E. rewrite !capability_of_wrap_of, Hf.
  simpl. eexists; split; [reflexivity|].
  destruct (wrap_of_run_fulfilled kind name f inputs (tick w) w1 v E)
    as (ev1 & Hrun1 & _).
  destruct (wrap_of_run_fulfilled kind name (wrap_of kind name f) inputs w _ v Hrun1)
    as (ev2 & Hrun2 & _).
  unfold eval, exec at 1. rewrite Hrun2. cbn [fst snd]. split; [done|].
  rewrite total_requests_ingest.
  change (engine (tick (exec (ingest ev1) (tick w1))))
    with (engine (exec (ingest ev1) (tick w1))).
  rewrite total_requests_ingest, engine_tick. lia.
Qed.

Lemma instrumenting_twice_witness :
  capability_of Tool echo_server "echo" = Some echo
  ∧ echo [JSString "hi"] (tick (tick example_world))
    = (Fulfilled (JSString "hi"), tick (tick example_world))
  ∧ ∃ g : Capability,
      capability_of Tool twice_instrumented "echo" = Some g
      ∧ total_requests (engine (exec (g [JSString "hi"]) example_world)) = 2.
Proof.
  assert (H1 : capability_of Tool echo_server "echo" = Some echo) by reflexivity.
  assert (H2 : echo [JSString "hi"] (tick (tick example_world))
               = (Fulfilled (JSString "hi"), tick (tick example_world)))
    by reflexivity.
  split_and!; [exact H1|exact H2|].
  destruct (instrumenting_twice Tool echo_server "echo" echo [JSString "hi"]
              example_world _ _ H1 H2) as (g & Hg & _ & Ht).
  exists g. split; [exact Hg|]. rewrite Ht. reflexivity.
Defined.

(** X24. A wrapped resource always reports the operation ['read'].  For a
    call that returns a string it reports the length of the string as the
    bytes transferred, and for any other returned value 0.  For a call that
    throws it reports no byte count at all, and nothing when the message of
    the thrown value cannot be read: then no access is stored. *)
Theorem resource_bytes_reported
  (name : string) (f : Capability) (inputs : list JSValue) (w : World) :
  let after := engine (exec (wrapResource name f inputs) w) in
  match f inputs (tick w) with
  | (Fulfilled v, w1) =>
      ∃ r : MCPResourceAccess,
        resourceAccesses after = resourceAccesses (engine w1) ++ [r]
        ∧ operation r = read
        ∧ bytesTransferred r
          = Some (match v with
                  | JSString s => Z.of_nat (String.length s)
                  | _ => 0
                  end)
  | (Rejected e, w1) =>
      match error_message e with
      | Returns message =>
          ∃ r : MCPResourceAccess,
            resourceAccesses after = resourceAccesses (engine w1) ++ [r]
            ∧ operation r = read
            ∧ ra_error r = Some message
            ∧ bytesTransferred r = None
      | Throws _ => resourceAccesses after = resourceAccesses (engine w1)
      end
  | (Unsettled, w1) => resourceAccesses after = resourceAccesses (engine w1)
  end.
Proof.
  cbv zeta. destruct (f inputs (tick w)) as [[v|e|] w1] eqn:E;
    [|destruct (error_message e) as [message|exception] eqn:Hm|];
    unfold exec at 1; rewrite wrapResource_run, E, ?Hm; cbn [snd]; [| |done..].
  - rewrite recordResourceAccess_resourceAccesses. eexists. split; [done|].
    split; [done|]. by destruct v.
  - rewrite recordResourceAccess_resourceAccesses. by eexists.
Qed.

(** X25. The token count that a wrapped prompt reports for a returned string
    is the number of pieces of [split(/\s+/)]: the number of words of the
    string, plus one when the string is empty or begins with whitespace, plus
    one when it ends with whitespace.  For any other returned value it is 0.
    A call that throws reports no token count, and nothing when the message
    of the thrown value cannot be read: then no call is stored. *)
Theorem prompt_tokens_reported
  (name : string) (f : Capability) (inputs : list JSValue) (w : World) :
  let after := engine (exec (wrapPrompt name f inputs) w) in
  match f inputs (tick w) with
  | (Fulfilled v, w1) =>
      ∃ r : MCPPromptCall,
        promptCalls after = promptCalls (engine w1) ++ [r]
        ∧ tokensGenerated r
          = Some (match v with
                  | JSString s =>
                      Z.of_nat (word_count s
                                + Nat.b2n (starts_blank (list_ascii_of_string s))
                                + Nat.b2n (ends_blank false (list_ascii_of_string s)))
                  | _ => 0
                  end)
  | (Rejected e, w1) =>
      match error_message e with
      | Returns message =>
          ∃ r : MCPPromptCall,
            promptCalls after = promptCalls (engine w1) ++ [r]
            ∧ pc_error r = Some message
            ∧ tokensGenerated r = None
      | Throws _ => promptCalls after = promptCalls (engine w1)
      end
  | (Unsettled, w1) => promptCalls after = promptCalls (engine w1)
  end.
Proof.
  cbv zeta. destruct (f inputs (tick w)) as [[v|e|] w1] eqn:E;
    [|destruct (error_message e) as [message|exception] eqn:Hm|];
    unfold exec at 1; rewrite wrapPrompt_run, E, ?Hm; cbn [snd]; [| |done..].
  - rewrite recordPromptCall_promptCalls. eexists. split; [done|].
    destruct v; try done. simpl. by rewrite split_ws_length.
  - rewrite recordPromptCall_promptCalls. by eexists.
Qed.

(** * The dashboard and the command line *)

(** ** Uptime as text *)

Lemma uptime_of_parts (d h m s rest : Z) :
  uptime_fields d h m s rest →
  let seconds := uptime_of d h m s rest / 1000 in
  let minutes := seconds / 60 in
  let hours := minutes / 60 in
  let days := hours / 24 in
  days = d ∧ hours = d * 24 + h ∧ minutes = (d * 24 + h) * 60 + m
  ∧ seconds = ((d * 24 + h) * 60 + m) * 60 + s
  ∧ Z.rem hours 24 = h ∧ Z.rem minutes 60 = m ∧ Z.rem seconds 60 = s.
Proof.
  intros (Hd & Hh & Hm & Hs & Hr). cbv zeta. unfold uptime_of.
  assert (E1 : ((((d * 24 + h) * 60 + m) * 60 + s) * 1000 + rest) / 1000
               = ((d * 24 + h) * 60 + m) * 60 + s).
  { symmetry. apply (Z.div_unique _ _ _ rest); lia. }
  rewrite E1.
  assert (E2 : (((d * 24 + h) * 60 + m) * 60 + s) / 60 = (d * 24 + h) * 60 + m).
  { symmetry. apply (Z.div_unique _ _ _ s); lia. }
  rewrite E2.
  assert (E3 : ((d * 24 + h) * 60 + m) / 60 = d * 24 + h).
  { symmetry. apply (Z.div_unique _ _ _ m); lia. }
  rewrite E3.
  assert (E4 : (d * 24 + h) / 24 = d).
  { symmetry. apply (Z.div_unique _ _ _ h); lia. }
  rewrite E4.
  split_and!; try done.
  - rewrite Z.rem_mod_nonneg by lia. symmetry. apply (Z.mod_unique _ _ d); lia.
  - rewrite Z.rem_mod_nonneg by lia. symmetry.
    apply (Z.mod_unique _ _ (d * 24 + h)); lia.
  - rewrite Z.rem_mod_nonneg by lia. symmetry.
    apply (Z.mod_unique _ _ ((d * 24 + h) * 60 + m)); lia.
Qed.

(** X26. The dashboard prints an uptime of [d] days, [h] hours, [m] minutes
    and [s] seconds (and less than a second more) with its two or three
    leading units: days, hours and minutes when there is a day, otherwise
    hours, minutes and seconds when there is an hour, otherwise minutes and
    seconds when there is a minute, otherwise the seconds alone. *)
Theorem dashboard_uptime_text (d h m s rest : Z) :
  uptime_fields d h m s rest →
  Dashboard.formatUptime (uptime_of d h m s rest)
  = if decide (0 < d) then
      pretty d +:+ "d " +:+ pretty h +:+ "h " +:+ pretty m +:+ "m"
    else if decide (0 < h) then
      pretty h +:+ "h " +:+ pretty m +:+ "m " +:+ pretty s +:+ "s"
    else if decide (0 < m) then pretty m +:+ "m " +:+ pretty s +:+ "s"
    else pretty s +:+ "s".
Proof.
  intros Hf. destruct (uptime_of_parts d h m s rest Hf)
    as (E1 & E2 & E3 & E4 & E5 & E6 & E7).
  destruct Hf as (Hd & Hh & Hm & Hs & Hr).
  unfold Dashboard.formatUptime. cbv zeta. rewrite E5, E6, E7, E1, E2, E3, E4.
  destruct (decide (0 < d)) as [Hd'|Hd']; [done|].
  assert (d = 0) as -> by lia. replace (0 * 24 + h) with h by lia.
  destruct (decide (0 < h)) as [Hh'|Hh']; [done|].
  assert (h = 0) as -> by lia. replace (0 * 60 + m) with m by lia.
  destruct (decide (0 < m)) as [Hm'|Hm']; [done|].
  assert (m = 0) as -> by lia. by replace (0 * 60 + s) with s by lia.
Qed.

Lemma dashboard_uptime_text_witness :
  uptime_fields 1 2 3 4 5
  ∧ Dashboard.formatUptime (uptime_of 1 2 3 4 5) = "1d 2h 3m".
Proof.
  assert (H : uptime_fields 1 2 3 4 5) by (unfold uptime_fields; lia).
  split; [exact H|]. by rewrite (dashboard_uptime_text 1 2 3 4 5 H).
Defined.

Lemma append_assoc' (a b c : string) : (a +:+ b) +:+ c = a +:+ b +:+ c.
Proof.
  induction a as [|x a IH]; [done|].
  change (String x ((a +:+ b) +:+ c) = String x (a +:+ b +:+ c)).
  by rewrite IH.
Qed.

Lemma div_pos_iff (a k : Z) : 0 < k → 0 < a / k ↔ k ≤ a.
Proof.
  intros Hk. split; intros H.
  - destruct (decide (k ≤ a)) as [|Hn]; [done|].
    pose proof (Z.div_lt_upper_bound a k 1 Hk ltac:(lia)). lia.
  - pose proof (Z.div_le_lower_bound a k 1 Hk ltac:(lia)). lia.
Qed.

Lemma uptime_thresholds (ms : Z) :
  (0 < ms / 1000 / 60 / 60 / 24 ↔ 86400000 ≤ ms)
  ∧ (0 < ms / 1000 / 60 / 60 ↔ 3600000 ≤ ms)
  ∧ (0 < ms / 1000 / 60 ↔ 60000 ≤ ms).
Proof.
  rewrite !Z.div_div by lia. simpl (_ * _).
  split_and!; apply div_pos_iff; lia.
Qed.

(** X27. The command line and the dashboard print the same uptime, except
    from one hour up to one day: there the dashboard also prints the
    seconds, which the command line leaves out. *)
Theorem uptime_text_cli_and_dashboard (ms : Z) :
  if decide (3600000 ≤ ms < 86400000)
  then Dashboard.formatUptime ms
       = Cli.formatUptime ms +:+ " " +:+ pretty (Z.rem (ms / 1000) 60) +:+ "s"
  else Cli.formatUptime ms = Dashboard.formatUptime ms.
Proof.
  unfold Cli.formatUptime, Dashboard.formatUptime. cbv zeta.
  destruct (uptime_thresholds ms) as (Hdays & Hhours & Hminutes).
  destruct (decide (3600000 ≤ ms < 86400000)) as [Hr|Hr].
  - rewrite decide_False by (rewrite Hdays; lia).
    rewrite decide_True by (rewrite Hhours; lia).
    rewrite decide_False by (rewrite Hdays; lia).
    rewrite decide_True by (rewrite Hhours; lia).
    by rewrite !append_assoc'.
  - destruct (decide (0 < ms / 1000 / 60 / 60 / 24)) as [|Hd]; [done|].
    rewrite Hdays in Hd.
    destruct (decide (0 < ms / 1000 / 60 / 60)) as [Hh|Hh]; [|done].
    rewrite Hhours in Hh. lia.
Qed.

(** ** The tools table and the error log of the dashboard *)

Section JsSort.
Context {A : Type} (compare : A → A → Z).

Hypothesis compare_total : ∀ a b, ordered compare a b ∨ ordered compare b a.
Hypothesis compare_trans : ∀ a b c, ordered compare a b → ordered compare b c → ordered compare a c.

Lemma insert_by_perm (x : A) (l : list A) : insert_by compare x l ≡ₚ x :: l.
Proof.
  induction l as [|y l IH]; simpl; [done|].
  case_decide; [done|]. rewrite IH. apply Permutation_swap.
Qed.

Lemma js_sort_perm (l : list A) : js_sort compare l ≡ₚ l.
Proof.
  unfold js_sort. induction l as [|x l IH]; simpl; [done|].
  by rewrite insert_by_perm, IH.
Qed.

Lemma insert_by_sorted (x : A) (l : list A) :
  StronglySorted (ordered compare) l → StronglySorted (ordered compare) (insert_by compare x l).
Proof.
  induction 1 as [|y l Hs IH Hall]; simpl.
  - repeat constructor.
  - case_decide as Hxy.
    + constructor; [by constructor|]. constructor; [done|].
      eapply Forall_impl; [exact Hall|]. intros z Hz. by eapply compare_trans.
    + constructor; [done|]. rewrite insert_by_perm. constructor; [|done].
      destruct (compare_total x y); [done|done].
Qed.

Lemma js_sort_sorted (l : list A) : StronglySorted (ordered compare) (js_sort compare l).
Proof.
  unfold js_sort. induction l as [|x l IH]; simpl; [constructor|].
  by apply insert_by_sorted.
Qed.

Lemma js_sort_take_drop (n : nat) (l : list A) (a b : A) :
  a ∈ take n (js_sort compare l) → b ∈ drop n (js_sort compare l) → ordered compare a b.
Proof.
  pose proof (js_sort_sorted l) as Hs. revert Hs.
  generalize (js_sort compare l) as s. clear l. intros s Hs. revert n.
  induction Hs as [|y s Hs IH Hall]; intros n Ha Hb.
  - by rewrite take_nil in Ha; apply elem_of_nil in Ha.
  - destruct n as [|n]; simpl in *; [by apply elem_of_nil in Ha|].
    apply elem_of_cons in Ha as [->|Ha]; [|by eapply IH].
    rewrite Forall_forall in Hall. apply Hall.
    eapply list_elem_of_lookup in Hb as [i Hi]. rewrite lookup_drop in Hi.
    by eapply list_elem_of_lookup_2.
Qed.

End JsSort.

Lemma by_callCount_desc_total (a b : ToolMetrics) :
  ordered by_callCount_desc a b ∨ ordered by_callCount_desc b a.
Proof. unfold ordered, by_callCount_desc. lia. Qed.

Lemma by_callCount_desc_trans (a b c : ToolMetrics) :
  ordered by_callCount_desc a b → ordered by_callCount_desc b c →
  ordered by_callCount_desc a c.
Proof. unfold ordered, by_callCount_desc. lia. Qed.

Lemma StronglySorted_weaken {A} (R S : A → A → Prop) (l : list A) :
  (∀ a b, R a b → S a b) → StronglySorted R l → StronglySorted S l.
Proof.
  intros HRS. induction 1 as [|x l Hs IH Hall]; constructor; [done|].
  eapply Forall_impl; [exact Hall|]. auto.
Qed.

Lemma substring_length (n : nat) (s : string) :
  (String.length (String.substring 0 n s) ≤ n)%nat.
Proof.
  revert s. induction n as [|n IH]; intros [|x s]; simpl; try lia.
  specialize (IH s). lia.
Qed.

(** X28. The tools table of the dashboard shows the tools of a snapshot by
    descending number of calls and stops after fifteen: what it shows and
    what it leaves out are together the snapshot's tools, no tool it leaves
    out was called more often than one it shows, every row has the five
    cells of the header, and the first cell is at most 18 characters of the
    tool's name.  Only with no tool at all it shows the one row
    "No tools called yet". *)
Theorem tools_table (toFixed : Q → nat → string) (metrics : ServerMetrics) :
  let tools := sm_tools metrics in
  let table := Dashboard.updateToolsTable toFixed metrics in
  ∃ shown hidden,
    shown ++ hidden ≡ₚ tools
    ∧ length shown = (length tools `min` 15)%nat
    ∧ StronglySorted (λ a b, tm_callCount b ≤ tm_callCount a) shown
    ∧ (∀ a b, a ∈ shown → b ∈ hidden → tm_callCount b ≤ tm_callCount a)
    ∧ table.1 = Dashboard.headers
    ∧ table.2 = (if decide (tools = [])
                 then [["No tools called yet"; ""; ""; ""; ""]]
                 else Dashboard.tool_row toFixed <$> shown)
    ∧ Forall (λ row, length row = length Dashboard.headers) table.2
    ∧ Forall (λ tool, ∃ cell,
        Dashboard.tool_row toFixed tool !! 0%nat = Some cell
        ∧ (String.length cell ≤ 18)%nat) shown.
Proof.
  cbv zeta.
  exists (take 15 (js_sort by_callCount_desc (sm_tools metrics))),
    (drop 15 (js_sort by_callCount_desc (sm_tools metrics))).
  pose proof (js_sort_perm by_callCount_desc (sm_tools metrics)) as Hperm.
  pose proof (js_sort_sorted by_callCount_desc by_callCount_desc_total
    by_callCount_desc_trans (sm_tools metrics)) as Hsorted.
  split_and!.
  - by rewrite take_drop.
  - rewrite length_take, (Permutation_length Hperm). lia.
  - rewrite <-(take_drop 15 (js_sort _ _)) in Hsorted.
    apply StronglySorted_app_1_l in Hsorted.
    eapply StronglySorted_weaken; [|exact Hsorted].
    unfold ordered, by_callCount_desc. intros; lia.
  - intros a b Ha Hb.
    pose proof (js_sort_take_drop by_callCount_desc by_callCount_desc_total
      by_callCount_desc_trans 15 _ a b Ha Hb) as H.
    unfold ordered, by_callCount_desc in H. lia.
  - done.
  - unfold Dashboard.updateToolsTable. cbv zeta. simpl snd.
    rewrite length_fmap, length_take, (Permutation_length Hperm).
    destruct (sm_tools metrics) as [|t ts] eqn:E.
    + rewrite decide_False by (simpl; lia). by rewrite decide_True.
    + rewrite decide_True by (simpl; lia). by rewrite decide_False.
  - unfold Dashboard.updateToolsTable. cbv zeta. simpl snd.
    case_decide.
    + apply Forall_fmap, Forall_true. done.
    + by repeat constructor.
  - apply Forall_true. intros tool.
    exists (String.substring 0 18 (tm_name tool)). split; [done|].
    apply substring_length.
Qed.

Lemma slice_last_slice_last {A} (m n : Z) (l : list A) :
  0 ≤ m ≤ n → slice_last m (slice_last n l) = slice_last m l.
Proof.
  intros Hmn. unfold slice_last. rewrite length_drop, drop_drop. f_equal. lia.
Qed.

(** X29. The error log of the dashboard shows the twenty most recent errors
    of the collector, the newest first, one line per error made of its time,
    type, name and message: the twenty most recent of the hundred that a
    snapshot carries are the twenty most recent of the whole log. *)
Theorem errors_log (toLocaleTimeString : Z → string) (w : World) :
  let log := errors (engine w) in
  let lines := Dashboard.updateErrorsLog toLocaleTimeString (eval getMetrics w) in
  lines = Dashboard.error_line toLocaleTimeString <$> reverse (slice_last 20 log)
  ∧ length lines = (length log `min` 20)%nat
  ∧ ∀ k, (k < length lines)%nat →
      lines !! k
      = Dashboard.error_line toLocaleTimeString <$> log !! (length log - 1 - k)%nat.
Proof.
  cbv zeta.
  assert (E : Dashboard.updateErrorsLog toLocaleTimeString (eval getMetrics w)
    = Dashboard.error_line toLocaleTimeString
        <$> reverse (slice_last 20 (errors (engine w)))).
  { unfold Dashboard.updateErrorsLog. cbv zeta.
    change (sm_errors (eval getMetrics w))
      with (slice_last 100 (errors (engine w))).
    by rewrite slice_last_slice_last by lia. }
  rewrite E. split; [done|].
  pose proof (slice_last_suffix 20 (errors (engine w))) as [pre Hpre].
  pose proof (slice_last_length 20 (errors (engine w)) ltac:(lia)) as Hlen.
  rewrite length_fmap, length_reverse.
  split; [lia|]. intros k Hk.
  rewrite list_lookup_fmap. f_equal.
  rewrite reverse_lookup by lia.
  revert Hpre Hlen Hk. generalize (slice_last 20 (errors (engine w))) as recent.
  intros recent -> _ Hk. rewrite length_app, lookup_app_r by lia.
  f_equal. lia.
Qed.
